(** * Broken-link checker for Stack Overflow answers: a verification model

    A shallow embedding of [stack-overflow.py]: the link extractor
    ([ExtractURLsFromAnswer.process]), the grouping by URL
    ([combine_pcollection_to_list] under [CombinePerKey]), the liveness
    check ([CheckURLReturns200.process]), the failure filter
    ([is_failure]), the ranking serializer ([json_encode]) and the
    pipeline of [run].

    Conventions of the model.
    - A Python [str] is a [string], a sequence of 8-bit characters (the
      bytes of its UTF-8 form for text outside ASCII: the pattern and the
      tests of the script look at ASCII characters only); a Python [int]
      is a [Z]; the float of the request time is a rational.
    - A Beam [PCollection] is a [list] holding its elements in one
      admissible order (Beam fixes none); [ParDo] of a generator is a
      flat map, [Filter] is [filter], [CombinePerKey] groups by key.
    - The libraries the script calls into ([urllib.parse.urlparse],
      [requests.head]) are an interface ([Libraries]) the pipeline is
      parametrised by; a concrete [urlparse] for ASCII URLs is given
      separately and used for the worked examples. *)

From Stdlib Require Import List String Ascii ZArith Lia Bool Arith.
From Stdlib Require Import Permutation Sorted QArith.
From Stdlib Require Import Numbers.DecimalString Numbers.DecimalZ.
Import ListNotations.

Local Open Scope string_scope.
Local Open Scope list_scope.

(** String concatenation, kept apart from the [++] of lists. *)
Local Infix "+++" := String.append (right associativity, at level 60).

(** ** Python strings *)

Module Str.

(** The double-quote character, [chr(34)]. *)
Definition dquote : ascii := ascii_of_nat 34.

(** A one-character string holding the double quote. *)
Definition q : string := String dquote EmptyString.

(** [s[n:]] *)
Fixpoint drop (n : nat) (s : string) : string :=
  match n, s with
  | O, _ => s
  | S _, EmptyString => EmptyString
  | S n', String _ s' => drop n' s'
  end.

(** [s[:n]] *)
Fixpoint take (n : nat) (s : string) : string :=
  match n, s with
  | O, _ => EmptyString
  | S _, EmptyString => EmptyString
  | S n', String c s' => String c (take n' s')
  end.

(** [s.startswith(p)] *)
Fixpoint startswith (s p : string) {struct p} : bool :=
  match p, s with
  | EmptyString, _ => true
  | String _ _, EmptyString => false
  | String a p', String b s' => Ascii.eqb a b && startswith s' p'
  end.

(** [s[len(p):]] when [s.startswith(p)], nothing otherwise. *)
Fixpoint strip_prefix (p s : string) {struct p} : option string :=
  match p, s with
  | EmptyString, _ => Some s
  | String _ _, EmptyString => None
  | String a p', String b s' =>
      if Ascii.eqb a b then strip_prefix p' s' else None
  end.

(** [s.endswith(suffix)] *)
Definition endswith (s suffix : string) : bool :=
  (String.length suffix <=? String.length s)%nat
  && String.eqb (drop (String.length s - String.length suffix) s) suffix.

(** [c in s] for a character [c]. *)
Fixpoint mem (c : ascii) (s : string) : bool :=
  match s with
  | EmptyString => false
  | String b s' => Ascii.eqb c b || mem c s'
  end.

(** [sub in s]: [sub] occurs in [s] as a contiguous substring. *)
Fixpoint contains (s sub : string) : bool :=
  startswith s sub
  || match s with
     | EmptyString => false
     | String _ s' => contains s' sub
     end.

(** [str(n)] for an integer. *)
Definition of_Z (n : Z) : string := NilZero.string_of_int (Z.to_int n).

End Str.

(** ** The regular expression of the extractor

    [re.finditer(pattern, body)] where the pattern is: the literal text
    [<a href=] and a double quote, then the group: [http], an optional
    [s], and one or more characters other than the double quote
    (a negated character class under [+]).  Quantifiers are greedy and
    give back on failure. *)

Module Re.

(** The longest run of characters other than the double quote at the
    head of [s], and what follows it (the greedy negated class). *)
Fixpoint span_nonquote (s : string) : string * string :=
  match s with
  | EmptyString => (EmptyString, EmptyString)
  | String c s' =>
      if Ascii.eqb c Str.dquote then (EmptyString, s)
      else let (w, r) := span_nonquote s' in (String c w, r)
  end.

(** The negated class under [+] at the head of [s]: the run it
    consumes, if not empty.  Nothing follows it in the pattern, so the
    greedy run is final. *)
Definition nonquote_plus (s : string) : option string :=
  match fst (span_nonquote s) with
  | EmptyString => None
  | w => Some w
  end.

(** The optional [s] and then the class under [+], at the head of
    [s]: first with the [s] taken, and when that fails, again without
    it. *)
Definition opt_s_then_plus (s : string) : option string :=
  match s with
  | String c s' =>
      if Ascii.eqb c "s"%char then
        match nonquote_plus s' with
        | Some w => Some (String c w)
        | None => nonquote_plus s
        end
      else nonquote_plus s
  | EmptyString => nonquote_plus s
  end.

(** The literal text the pattern starts with. *)
Definition anchor : string := "<a href=" +++ Str.q.

(** An attempt to match the whole pattern at the head of [s]; the
    result is [group(1)]. *)
Definition match_at (s : string) : option string :=
  match Str.strip_prefix anchor s with
  | None => None
  | Some r =>
      match Str.strip_prefix "http" r with
      | None => None
      | Some r' =>
          match opt_s_then_plus r' with
          | Some w => Some ("http" +++ w)
          | None => None
          end
      end
  end.

(** The scan of [finditer]: matches are found left to right and do not
    overlap; after a match the search resumes where the match ended.
    [skip] counts the characters of the current match still to pass. *)
Fixpoint finditer_from (skip : nat) (s : string) : list string :=
  match s with
  | EmptyString => []
  | String _ s' =>
      match skip with
      | S k => finditer_from k s'
      | O =>
          match match_at s with
          | Some url =>
              (* the match spans the 9 characters of [anchor] and [url] *)
              url :: finditer_from (8 + String.length url) s'
          | None => finditer_from 0 s'
          end
      end
  end.

(** [[m.group(1) for m in re.finditer(pattern, body)]] *)
Definition finditer (body : string) : list string := finditer_from 0 body.

End Re.

(** An anchor element as it appears in answer bodies. *)
Definition a_href (url : string) : string :=
  Re.anchor +++ url +++ Str.q +++ ">".


(** ** Exceptions and the libraries behind the script *)

(** A raised Python exception, as far as the script observes it:
    [type(e).__name__] and [str(e)]. *)
Record PyException := mkException {
  exc_type_name : string;
  exc_str : string
}.

(** The outcome of a call that may raise. *)
Inductive Result (A : Type) : Type :=
| Ok (a : A)
| Raise (e : PyException).
Arguments Ok {A} a.
Arguments Raise {A} e.

(** What [urlparse] returns, as far as the script reads it (only [netloc]
    is read; path, params, query and fragment are left out). *)
Record ParseResult := mkParseResult {
  scheme : string;
  netloc : string
}.

(** The call [requests.head(url, timeout=(connect, read), headers=...)]. *)
Record Request := mkRequest {
  req_url : string;
  req_connect_timeout : Q;
  req_read_timeout : Q;
  req_headers : list (string * string)
}.

(** A [requests.Response], as far as the script and [raise_for_status]
    read it; [elapsed] is [resp.elapsed.total_seconds()]. *)
Record Response := mkResponse {
  status_code : Z;
  reason : string;
  resp_url : string;
  elapsed : Q
}.

(** The two library calls whose results the script does not control.
    [requests_head] answers a request given the requests sent before it:
    the network may answer the same URL differently at different times. *)
Class Libraries := {
  urlparse : string -> Result ParseResult;
  requests_head : list Request -> Request -> Result Response
}.

Module Requests.

(** [Response.raise_for_status()] of the requests library: an
    [HTTPError] for a status from 400 to 599, nothing otherwise. *)
Definition raise_for_status (resp : Response) : Result unit :=
  let code := status_code resp in
  if ((400 <=? code) && (code <? 500))%Z then
    Raise (mkException "HTTPError"
             (Str.of_Z code +++ " Client Error: " +++ reason resp
              +++ " for url: " +++ resp_url resp))
  else if ((500 <=? code) && (code <? 600))%Z then
    Raise (mkException "HTTPError"
             (Str.of_Z code +++ " Server Error: " +++ reason resp
              +++ " for url: " +++ resp_url resp))
  else Ok tt.

End Requests.

(** ** Data model *)

(** A row of the BigQuery result: the [element] dict of the extractor. *)
Record Row := mkRow {
  question_title : string;
  body : string;
  score : Z;
  answer_id : Z
}.

(** [AnswerWithURL] *)
Record AnswerWithURL := mkAnswerWithURL {
  aw_score : Z;
  aw_answer_id : Z;
  aw_question_title : string;
  aw_answer_url : string
}.

(** [AnswerURLCheckResult] *)
Record AnswerURLCheckResult := mkAnswerURLCheckResult {
  url : string;
  answerURLs : list AnswerWithURL;
  status : option Z;
  err_type : option string;
  err_details : option string;
  req_time_secs : option Q
}.

(** The dict of [AnswerWithURL.to_dict]. *)
Record AnswerDict := mkAnswerDict {
  d_score : Z;
  d_answer_id : Z;
  d_question_title : string;
  d_answer_url : string
}.

(** The dict of [AnswerURLCheckResult.to_dict]. *)
Record ResultDict := mkResultDict {
  answer_score_sum : Z;
  answer_count : Z;
  d_url : string;
  answers : list AnswerDict;
  d_status : option Z;
  d_err_type : option string;
  d_err_details : option string;
  d_req_time_secs : option Q
}.

Module AnswerWithURL.
Definition to_dict (self : AnswerWithURL) : AnswerDict :=
  mkAnswerDict (aw_score self) (aw_answer_id self)
               (aw_question_title self) (aw_answer_url self).
End AnswerWithURL.

(** [sum(a.score for a in l)] *)
Definition sum_scores (l : list AnswerWithURL) : Z :=
  fold_left Z.add (map aw_score l) 0%Z.

Module AnswerURLCheckResult.
Definition to_dict (self : AnswerURLCheckResult) : ResultDict :=
  mkResultDict
    (sum_scores (answerURLs self))
    (Z.of_nat (List.length (answerURLs self)))
    (url self)
    (map AnswerWithURL.to_dict (answerURLs self))
    (status self)
    (err_type self)
    (err_details self)
    (req_time_secs self).
End AnswerURLCheckResult.

(** ** The extractor *)

Module ExtractURLsFromAnswer.
Section WithLibraries.
Context `{Libraries}.

(** [url in seen_urls] *)
Definition seen (u : string) (seen_urls : list string) : bool :=
  existsb (String.eqb u) seen_urls.

(** The [try] block of the loop body: [true] when the [continue] inside
    it is taken.  A parse that raises is logged and the URL is kept. *)
Definition skipped (u : string) : bool :=
  match urlparse u with
  | Ok parsed_url => Str.endswith (netloc parsed_url) "stackoverflow.com"
  | Raise _ => false
  end.

(** The reference built for a row; it does not depend on the URL. *)
Definition answer_with_url (element : Row) : AnswerWithURL :=
  mkAnswerWithURL (score element) (answer_id element)
    (question_title element)
    ("https://stackoverflow.com/a/" +++ Str.of_Z (answer_id element)).

(** The loop over the matches, with the set [seen_urls] threaded
    through it. *)
Fixpoint loop (element : Row) (seen_urls : list string)
         (matches : list string) : list (string * AnswerWithURL) :=
  match matches with
  | [] => []
  | u :: rest =>
      if seen u seen_urls then loop element seen_urls rest
      else
        let seen_urls := u :: seen_urls in
        if skipped u then loop element seen_urls rest
        else (u, answer_with_url element) :: loop element seen_urls rest
  end.

Definition process (element : Row) : list (string * AnswerWithURL) :=
  loop element [] (Re.finditer (body element)).

End WithLibraries.
End ExtractURLsFromAnswer.

(** ** Grouping *)

(** An element handed to a combine function: a value, or a list of
    values that an earlier call of the function returned. *)
Inductive El (V : Type) : Type :=
| One (v : V)
| Many (l : list V).
Arguments One {V} v.
Arguments Many {V} l.

Definition combine_pcollection_to_list {V : Type} (els : list (El V)) : list V :=
  fold_left
    (fun ret el =>
       match el with
       | Many l => ret ++ l
       | One v => ret ++ [v]
       end)
    els [].

Module Beam.

(** [beam.ParDo] of a generator function. *)
Definition ParDo {A B : Type} (process : A -> list B) (pc : list A) : list B :=
  flat_map process pc.

(** The values of the pairs whose key is [k]. *)
Definition values_of {V : Type} (k : string) (pc : list (string * V)) : list V :=
  map snd (filter (fun kv => String.eqb (fst kv) k) pc).

(** The distinct keys. *)
Definition keys {V : Type} (pc : list (string * V)) : list string :=
  nodup string_dec (map fst pc).

(** [beam.CombinePerKey(fn)]: one pair per distinct key, holding [fn]
    of the values of that key. *)
Definition CombinePerKey {V : Type} (fn : list (El V) -> list V)
           (pc : list (string * V)) : list (string * list V) :=
  map (fun k => (k, fn (map One (values_of k pc)))) (keys pc).

(** [beam.CombineGlobally(fn)]: a single element. *)
Definition CombineGlobally {V : Type} (fn : list (El V) -> list V)
           (pc : list V) : list (list V) :=
  [fn (map One pc)].

Definition Filter {A : Type} (p : A -> bool) (pc : list A) : list A :=
  filter p pc.

Definition Map {A B : Type} (f : A -> B) (pc : list A) : list B :=
  map f pc.

End Beam.

(** ** The network as state: the log of requests sent *)

(** A computation that may send requests: it reads and extends the log. *)
Definition Net (A : Type) : Type := list Request -> A * list Request.

Definition ret {A : Type} (a : A) : Net A := fun log => (a, log).

Definition bind {A B : Type} (m : Net A) (k : A -> Net B) : Net B :=
  fun log => let (a, log') := m log in k a log'.

Notation "x <- m ;; k" := (bind m (fun x => k))
  (at level 61, m at next level, right associativity).

(** Running a process over every element of a collection, in order. *)
Fixpoint for_each {A B : Type} (process : A -> Net (list B)) (pc : list A)
  : Net (list B) :=
  match pc with
  | [] => ret []
  | a :: rest =>
      out <- process a ;;
      outs <- for_each process rest ;;
      ret (out ++ outs)
  end.

(** ** The liveness check *)

Module CheckURLReturns200.
Section WithLibraries.
Context `{Libraries}.

Definition connect_timeout : Q := 5.
Definition read_timeout : Q := 10.
Definition req_headers : list (string * string) :=
  [("User-Agent", "broken-link-checker")].

(** The request of [requests.head(url, timeout=..., headers=...)]. *)
Definition request_for (u : string) : Request :=
  mkRequest u connect_timeout read_timeout req_headers.

(** Sending the HEAD request: the library answers from the log so far,
    and the request joins the log. *)
Definition head (u : string) : Net (Result Response) :=
  fun log => (requests_head log (request_for u), log ++ [request_for u]).

(** The [except Exception as e] handler. *)
Definition handler (e : PyException) (r : AnswerURLCheckResult)
  : AnswerURLCheckResult :=
  mkAnswerURLCheckResult (url r) (answerURLs r) (status r)
    (Some (exc_type_name e)) (Some (exc_str e)) (req_time_secs r).

(** The [try] body after the request returned: the two assignments,
    then [raise_for_status]. *)
Definition record_response (resp : Response) (r : AnswerURLCheckResult)
  : AnswerURLCheckResult :=
  let r := mkAnswerURLCheckResult (url r) (answerURLs r)
             (Some (status_code resp)) (err_type r) (err_details r)
             (req_time_secs r) in
  let r := mkAnswerURLCheckResult (url r) (answerURLs r) (status r)
             (err_type r) (err_details r) (Some (elapsed resp)) in
  match Requests.raise_for_status resp with
  | Ok _ => r
  | Raise e => handler e r
  end.

Definition process (element : string * list AnswerWithURL)
  : Net (list AnswerURLCheckResult) :=
  let (u, answer_urls) := element in
  let url_check_result :=
    mkAnswerURLCheckResult u answer_urls None None None None in
  outcome <- head u ;;
  ret [match outcome with
       | Ok resp => record_response resp url_check_result
       | Raise e => handler e url_check_result
       end].

(** The result [process] yields for a group, by the outcome of its
    request. *)
Definition result_of (u : string) (answer_urls : list AnswerWithURL)
           (outcome : Result Response) : AnswerURLCheckResult :=
  match outcome with
  | Ok resp =>
      record_response resp
        (mkAnswerURLCheckResult u answer_urls None None None None)
  | Raise e =>
      handler e (mkAnswerURLCheckResult u answer_urls None None None None)
  end.

(** A group was checked by one request, sent after some log. *)
Definition checked (g : string * list AnswerWithURL)
           (r : AnswerURLCheckResult) : Prop :=
  exists log,
    r = result_of (fst g) (snd g) (requests_head log (request_for (fst g))).

End WithLibraries.
End CheckURLReturns200.

Definition is_failure (element : AnswerURLCheckResult) : bool :=
  match err_type element with
  | Some _ => true
  | None => false
  end.

(** ** Ranking and serialization *)

(** [list.sort(key=..., reverse=True)]: descending by key, elements of
    equal key staying in their original order. *)
Fixpoint insert_desc {A : Type} (key : A -> Z) (x : A) (l : list A) : list A :=
  match l with
  | [] => [x]
  | y :: l' =>
      if (key y <=? key x)%Z then x :: l else y :: insert_desc key x l'
  end.

Definition sort_reverse {A : Type} (key : A -> Z) (l : list A) : list A :=
  fold_right (insert_desc key) [] l.

(** [json_encode]: the list of dicts in the order in which [json.dumps]
    writes them out; the rendering to text keeps that order and is not
    modelled. *)
Definition json_encode (check_results : list AnswerURLCheckResult)
  : list ResultDict :=
  let results_as_dicts := map AnswerURLCheckResult.to_dict check_results in
  sort_reverse answer_score_sum results_as_dicts.

(** [JsonifyAnswerURLCheckResults.expand] *)
Definition JsonifyAnswerURLCheckResults (pcoll : list AnswerURLCheckResult)
  : list (list ResultDict) :=
  Beam.Map json_encode
    (Beam.CombineGlobally combine_pcollection_to_list pcoll).

Definition drop_key (element : string * AnswerURLCheckResult)
  : AnswerURLCheckResult :=
  let (_, result) := element in result.

(** ** The pipeline *)

(** The two files written by [run], each a collection of documents
    (one document per file, as [CombineGlobally] yields one element). *)
Record Outputs := mkOutputs {
  failures : list (list ResultDict);
  all_responses : list (list ResultDict)
}.

Section Pipeline.
Context `{Libraries}.

(** The stages up to [CheckURLAlive], over the rows the query returns. *)
Definition url_groups (rows : list Row) : list (string * list AnswerWithURL) :=
  Beam.CombinePerKey combine_pcollection_to_list
    (Beam.ParDo ExtractURLsFromAnswer.process rows).

Definition responses (rows : list Row) : Net (list AnswerURLCheckResult) :=
  for_each CheckURLReturns200.process (url_groups rows).

Definition run (rows : list Row) : Net Outputs :=
  resp <- responses rows ;;
  ret (mkOutputs
         (JsonifyAnswerURLCheckResults (Beam.Filter is_failure resp))
         (JsonifyAnswerURLCheckResults resp)).

(** A run from the start: nothing has been requested yet. *)
Definition results_of (rows : list Row) : list AnswerURLCheckResult :=
  fst (responses rows []).

Definition probes_of (rows : list Row) : list Request :=
  snd (responses rows []).

Definition outputs_of (rows : list Row) : Outputs :=
  fst (run rows []).

(** The document of a view: the objects of its file, in order. *)
Definition failures_view (rows : list Row) : list ResultDict :=
  List.concat (failures (outputs_of rows)).

Definition all_results_view (rows : list Row) : list ResultDict :=
  List.concat (all_responses (outputs_of rows)).

End Pipeline.

(** ** A concrete [urlparse]

    [urllib.parse.urlparse] of CPython 3.10, for the two components kept
    in [ParseResult].  Two checks of the library are left out, on which
    it raises [ValueError] where this function returns: the
    normalisation check of a netloc with characters outside ASCII, and
    the validation of a bracketed host that later versions of CPython
    add.  The function is used below only on URLs whose netloc is ASCII
    and has no bracket, where the library and the function agree; the
    general statements take [urlparse] from [Libraries]. *)

Module Urllib.

Definition in_range (lo hi c : ascii) : bool :=
  (nat_of_ascii lo <=? nat_of_ascii c)%nat
  && (nat_of_ascii c <=? nat_of_ascii hi)%nat.

(** [c in scheme_chars]: letters, digits, plus, minus and dot. *)
Definition is_scheme_char (c : ascii) : bool :=
  in_range "a" "z" c || in_range "A" "Z" c || in_range "0" "9" c
  || Str.mem c "+-.".

Definition lower_char (c : ascii) : ascii :=
  if in_range "A" "Z" c then ascii_of_nat (nat_of_ascii c + 32) else c.

(** [s.lower()] on ASCII letters. *)
Fixpoint lower (s : string) : string :=
  match s with
  | EmptyString => EmptyString
  | String c s' => String (lower_char c) (lower s')
  end.

(** [s.find(c)]: the index of the first [c], if any. *)
Fixpoint find (c : ascii) (s : string) : option nat :=
  match s with
  | EmptyString => None
  | String b s' =>
      if Ascii.eqb c b then Some O
      else match find c s' with
           | Some i => Some (S i)
           | None => None
           end
  end.

Fixpoint all_chars (p : ascii -> bool) (s : string) : bool :=
  match s with
  | EmptyString => true
  | String c s' => p c && all_chars p s'
  end.

(** Tab, carriage return and newline are removed from the URL first. *)
Definition is_unsafe (c : ascii) : bool :=
  Ascii.eqb c (ascii_of_nat 9) || Ascii.eqb c (ascii_of_nat 13)
  || Ascii.eqb c (ascii_of_nat 10).

Fixpoint remove_unsafe (s : string) : string :=
  match s with
  | EmptyString => EmptyString
  | String c s' =>
      if is_unsafe c then remove_unsafe s' else String c (remove_unsafe s')
  end.

(** The scheme and what follows its colon, when the text before the
    first colon is not empty and made of scheme characters. *)
Definition split_scheme (u : string) : string * string :=
  match find ":" u with
  | Some (S i) =>
      if all_chars is_scheme_char (Str.take (S i) u)
      then (lower (Str.take (S i) u), Str.drop (S (S i)) u)
      else (EmptyString, u)
  | _ => (EmptyString, u)
  end.

(** The text up to the first of slash, question mark and hash. *)
Fixpoint span_netloc (s : string) : string * string :=
  match s with
  | EmptyString => (EmptyString, EmptyString)
  | String c s' =>
      if Str.mem c "/?#" then (EmptyString, s)
      else let (n, r) := span_netloc s' in (String c n, r)
  end.

(** [_splitnetloc(url, start)] *)
Definition _splitnetloc (u : string) (start : nat) : string * string :=
  span_netloc (Str.drop start u).

Definition urlparse (u : string) : Result ParseResult :=
  let u := remove_unsafe u in
  let (scheme, u) := split_scheme u in
  if Str.startswith u "//" then
    let (netloc, _) := _splitnetloc u 2 in
    if (Str.mem "[" netloc && negb (Str.mem "]" netloc))
       || (Str.mem "]" netloc && negb (Str.mem "[" netloc))
    then Raise (mkException "ValueError" "Invalid IPv6 URL")
    else Ok (mkParseResult scheme netloc)
  else Ok (mkParseResult scheme EmptyString).

End Urllib.

(** The script's libraries over a given network. *)
Definition python (network : list Request -> Request -> Result Response)
  : Libraries :=
  {| urlparse := Urllib.urlparse; requests_head := network |}.

(** ** The host of a netloc

    The [hostname] property of the result of [urlparse] (CPython 3.10):
    the netloc without user information and port, in lower case.  The
    script does not read it; it says what the host of a URL is. *)

Module UrllibHost.

(** [s.partition(c)]: the text before the first [c], whether [c] was
    found, and the text after it. *)
Fixpoint partition (c : ascii) (s : string) : string * bool * string :=
  match s with
  | EmptyString => (EmptyString, false, EmptyString)
  | String b s' =>
      if Ascii.eqb c b then (EmptyString, true, s')
      else let '(before, found, after) := partition c s' in
           (String b before, found, after)
  end.

(** [s.rpartition(c)[2]]: the text after the last [c], or [s] when there
    is none. *)
Fixpoint after_last (c : ascii) (s : string) : string :=
  match s with
  | EmptyString => EmptyString
  | String b s' =>
      if Str.mem c s' then after_last c s'
      else if Ascii.eqb c b then s' else s
  end.

(** [_hostinfo[0]] *)
Definition hostinfo_name (netloc : string) : string :=
  let hostinfo := after_last "@" netloc in
  let '(_, have_open_br, bracketed) := partition "[" hostinfo in
  if have_open_br
  then let '(hostname, _, _) := partition "]" bracketed in hostname
  else let '(hostname, _, _) := partition ":" hostinfo in hostname.

(** [hostname]: nothing for an empty name; a zone after a percent sign
    is not put in lower case. *)
Definition hostname (netloc : string) : option string :=
  match hostinfo_name netloc with
  | EmptyString => None
  | name =>
      let '(host, percent, zone) := partition "%" name in
      Some (Urllib.lower host
            +++ (if percent then "%" else EmptyString) +++ zone)
  end.

End UrllibHost.

(** ** Worked inputs *)

(** A network on which every request is answered with the same status. *)
Definition answering (code : Z) (phrase : string)
  : list Request -> Request -> Result Response :=
  fun _ rq => Ok (mkResponse code phrase (req_url rq) (1 # 10)).

(** A network on which every request raises. *)
Definition failing (e : PyException)
  : list Request -> Request -> Result Response :=
  fun _ _ => Raise e.

Definition connection_error : PyException :=
  mkException "ConnectionError" "Max retries exceeded".


(** The two records of the end-to-end example. *)
Definition record_A : Row :=
  mkRow "Question A"
    ("<p>" +++ a_href "https://example.com/x" +++ "x</a> "
     +++ a_href "https://stackoverflow.com/q/9" +++ "q</a></p>")
    10 1.

Definition record_B : Row :=
  mkRow "Question B"
    ("<p>" +++ a_href "https://example.com/x" +++ "x</a></p>")
    5 2.

(** A record whose only link points back to the site. *)
Definition record_so : Row :=
  mkRow "Question S" (a_href "https://stackoverflow.com/q/9") 3 7.

(** A record whose link is not a well-formed URL. *)
Definition record_bad : Row :=
  mkRow "Question M" (a_href "http://bad url with spaces") 4 8.


(** A record that links to another site whose name ends the same way. *)
Definition record_unrelated : Row :=
  mkRow "Question U" (a_href "http://notstackoverflow.com/page") 6 11.

(** A record that links to the site with the port written out. *)
Definition record_port : Row :=
  mkRow "Question P" (a_href "https://stackoverflow.com:443/q/9") 1 13.

(** A record whose link has the bare value [http]. *)
Definition record_bare : Row :=
  mkRow "Question H" (a_href "http") 2 12.

(** ** Notions used in the statements *)

(** Every occurrence of the pattern's literal text in [s] is followed,
    within [s], by a double quote: a match that starts in [s] ends in
    [s], whatever text comes after. *)
Fixpoint anchors_closed (s : string) : bool :=
  match Str.strip_prefix Re.anchor s with
  | Some rest => Str.mem Str.dquote rest
  | None => true
  end
  && match s with
     | EmptyString => true
     | String _ s' => anchors_closed s'
     end.

(** The URL is the target of a link the pattern finds in the row's body. *)
Definition linked (u : string) (element : Row) : bool :=
  existsb (String.eqb u) (Re.finditer (body element)).

(** The rows that link to the URL. *)
Definition rows_linking (u : string) (rows : list Row) : list Row :=
  filter (linked u) rows.

(** [sum(r["score"] for r in rows)] *)
Definition total_score (rows : list Row) : Z :=
  fold_right Z.add 0%Z (map score rows).

(** The check results, the requests and the serialized objects that are
    about a URL. *)
Definition results_for (u : string) (l : list AnswerURLCheckResult)
  : list AnswerURLCheckResult :=
  filter (fun r => String.eqb (url r) u) l.

Definition probes_for (u : string) (log : list Request) : list Request :=
  filter (fun rq => String.eqb (req_url rq) u) log.

Definition objects_for (u : string) (doc : list ResultDict) : list ResultDict :=
  filter (fun d => String.eqb (d_url d) u) doc.

(** A status from 200 to 299. *)
Definition is_2xx (code : Z) : bool := ((200 <=? code) && (code <? 300))%Z.

(** A status from 400 to 599, on which [raise_for_status] raises. *)
Definition is_4xx_5xx (code : Z) : bool := ((400 <=? code) && (code <? 600))%Z.

(** The serialized object has [err_type] set. *)
Definition has_error (d : ResultDict) : bool :=
  match d_err_type d with
  | Some _ => true
  | None => false
  end.

(** [b] may stand after [a] in a list that descends by [key]. *)
Definition ge_key {A : Type} (key : A -> Z) (a b : A) : Prop :=
  (key b <= key a)%Z.

(** Every object of the document has a score sum at least that of the
    object after it. *)
Definition descending (doc : list ResultDict) : Prop :=
  forall i a b,
    nth_error doc i = Some a ->
    nth_error doc (S i) = Some b ->
    (answer_score_sum b <= answer_score_sum a)%Z.

(** The result stands for a failure: no status, or a status outside
    200 to 299. *)
Definition represents_failure (r : AnswerURLCheckResult) : Prop :=
  match status r with
  | None => True
  | Some code => is_2xx code = false
  end.

(** ** The query and the file names of [run] *)

Definition nl : string := String (ascii_of_nat 10) EmptyString.

(** The text of the query before and after the number. *)
Definition query_head : string :=
  nl +++ "    select questions.title as question_title, answers.body, answers.score, answers.id as answer_id from `bigquery-public-data.stackoverflow.posts_answers` as answers"
  +++ nl +++ "    join `bigquery-public-data.stackoverflow.posts_questions` as questions"
  +++ nl +++ "    on answers.parent_id = questions.id"
  +++ nl +++ "    where answers.body like '%<a href=%' order by answers.score desc limit ".

Definition query_tail : string := " " +++ nl +++ "    ".

(** The query, for the number that [int(known_args.num_answers)]
    returns (when [int] raises, [run] stops before the pipeline is
    built). *)
Definition query (num_answers : Z) : string :=
  query_head +++ Str.of_Z num_answers +++ query_tail.

Definition failures_file_path (output time_str : string) : string :=
  output +++ "-" +++ time_str +++ "-failures".

Definition all_responses_file_path (output time_str : string) : string :=
  output +++ "-" +++ time_str +++ "-all_responses".

(** The file that [WriteToText] writes for a prefix, with the suffix
    [.json] and one shard, as the script's docstring names it. *)
Definition written_file (file_path_prefix : string) : string :=
  file_path_prefix +++ "-00000-of-00001" +++ ".json".

(** ** Further notions used in the statements *)

(** The elements of a list of URLs in the order of their first
    occurrence, but for those in [seen_urls]. *)
Fixpoint first_occurrences_from (seen_urls l : list string) : list string :=
  match l with
  | [] => []
  | u :: rest =>
      if existsb (String.eqb u) seen_urls
      then first_occurrences_from seen_urls rest
      else u :: first_occurrences_from (u :: seen_urls) rest
  end.

Definition first_occurrences (l : list string) : list string :=
  first_occurrences_from [] l.

(** The sum of the scores of serialized answers. *)
Definition sum_dict_scores (l : list AnswerDict) : Z :=
  fold_left Z.add (map d_score l) 0%Z.

(** The number of characters that the matches of a scan span: for each
    URL the literal text of the pattern and the URL. *)
Definition spanned (urls : list string) : nat :=
  fold_right (fun u n => String.length Re.anchor + String.length u + n)%nat
             O urls.

(** A decimal digit. *)
Definition is_digit (c : ascii) : bool := Urllib.in_range "0" "9" c.

(** ** Facts about strings *)

Module StrFacts.

Lemma append_empty_r (s : string) : s +++ EmptyString = s.
Proof. induction s; simpl; congruence. Qed.

Lemma append_assoc (a b c : string) : (a +++ b) +++ c = a +++ b +++ c.
Proof. induction a; simpl; congruence. Qed.

Lemma length_append (a b : string) :
  String.length (a +++ b) = (String.length a + String.length b)%nat.
Proof. induction a; simpl; congruence. Qed.

Lemma take_drop (n : nat) (s : string) : Str.take n s +++ Str.drop n s = s.
Proof.
  revert s; induction n as [|n IH]; intros [|c s]; simpl; trivial.
  now rewrite IH.
Qed.

Lemma drop_append (p s : string) : Str.drop (String.length p) (p +++ s) = s.
Proof. induction p; simpl; trivial. Qed.

Lemma length_drop (n : nat) (s : string) :
  String.length (Str.drop n s) = (String.length s - n)%nat.
Proof. revert s; induction n as [|n IH]; intros [|c s]; simpl; auto. Qed.

Lemma strip_prefix_iff (p s r : string) :
  Str.strip_prefix p s = Some r <-> s = p +++ r.
Proof.
  revert s; induction p as [|a p IH]; intros s; simpl.
  - split; congruence.
  - destruct s as [|b s]; [split; discriminate|].
    destruct (Ascii.eqb_spec a b) as [->|Hne].
    + rewrite IH. split; congruence.
    + split; [discriminate|]. intros E; injection E; congruence.
Qed.

Lemma strip_prefix_append (p r : string) :
  Str.strip_prefix p (p +++ r) = Some r.
Proof. now apply strip_prefix_iff. Qed.

Lemma startswith_iff (s p : string) :
  Str.startswith s p = true <-> exists r, s = p +++ r.
Proof.
  revert s; induction p as [|a p IH]; intros s; simpl.
  - split; eauto.
  - destruct s as [|b s].
    + split; [discriminate|]. intros [r E]; discriminate.
    + rewrite andb_true_iff, IH. split.
      * intros [E [r ->]]. apply Ascii.eqb_eq in E. subst. eauto.
      * intros [r E]. injection E as -> ->. split; eauto using Ascii.eqb_refl.
Qed.

(** [endswith] holds exactly of the strings that are some text followed
    by the suffix. *)
Lemma endswith_iff (s suffix : string) :
  Str.endswith s suffix = true <-> exists p, s = p +++ suffix.
Proof.
  unfold Str.endswith. rewrite andb_true_iff, Nat.leb_le, String.eqb_eq.
  split.
  - intros [_ E].
    exists (Str.take (String.length s - String.length suffix) s).
    transitivity
      (Str.take (String.length s - String.length suffix) s
       +++ Str.drop (String.length s - String.length suffix) s).
    + symmetry. apply take_drop.
    + now rewrite E.
  - intros [p ->]. rewrite length_append. split; [lia|].
    replace (String.length p + String.length suffix - String.length suffix)%nat
      with (String.length p) by lia.
    apply drop_append.
Qed.

Lemma contains_iff (s sub : string) :
  Str.contains s sub = true <-> exists pre post, s = pre +++ sub +++ post.
Proof.
  induction s as [|c s IH].
  - simpl. rewrite orb_false_r, startswith_iff. split.
    + intros [r ->]. now exists EmptyString, r.
    + intros [[|a pre] [post E]]; simpl in E; [|discriminate].
      now exists post.
  - change (Str.contains (String c s) sub)
      with (Str.startswith (String c s) sub || Str.contains s sub).
    rewrite orb_true_iff, startswith_iff, IH. split.
    + intros [[r ->] | [pre [post ->]]].
      * now exists EmptyString, r.
      * now exists (String c pre), post.
    + intros [[|a pre] [post E]]; simpl in E.
      * left. now exists post.
      * right. injection E as -> ->. now exists pre, post.
Qed.

Lemma mem_append (c : ascii) (a b : string) :
  Str.mem c (a +++ b) = Str.mem c a || Str.mem c b.
Proof. induction a; simpl; trivial. now rewrite IHa, orb_assoc. Qed.

End StrFacts.

(** ** Facts about the pattern *)

Module ReFacts.

Lemma span_nonquote_spec (s : string) :
  s = fst (Re.span_nonquote s) +++ snd (Re.span_nonquote s)
  /\ Str.mem Str.dquote (fst (Re.span_nonquote s)) = false
  /\ (snd (Re.span_nonquote s) = EmptyString
      \/ exists r, snd (Re.span_nonquote s) = String Str.dquote r).
Proof.
  induction s as [|c s [IH1 [IH2 IH3]]]; cbn [Re.span_nonquote].
  - simpl. auto.
  - destruct (Ascii.eqb_spec c Str.dquote) as [->|Hne].
    + cbn [fst snd String.append Str.mem].
      split; trivial. split; trivial. right. now exists s.
    + destruct (Re.span_nonquote s) as [w r].
      cbn [fst snd String.append Str.mem] in *.
      split; [congruence|]. split; trivial.
      rewrite IH2, orb_false_r. apply Ascii.eqb_neq. congruence.
Qed.

(** The run stops at the first double quote, or at the end. *)
Lemma span_nonquote_run (w r : string) :
  Str.mem Str.dquote w = false ->
  r = EmptyString \/ Str.startswith r Str.q = true ->
  Re.span_nonquote (w +++ r) = (w, r).
Proof.
  intros Hw Hr. induction w as [|c w IH];
    cbn [String.append Re.span_nonquote Str.mem] in *.
  - destruct Hr as [-> | Hr]; trivial.
    destruct r as [|c r]; trivial.
    unfold Str.q in Hr. cbn [Str.startswith] in Hr.
    apply andb_true_iff in Hr as [Hc _]. apply Ascii.eqb_eq in Hc.
    subst c. cbn [Re.span_nonquote]. now rewrite Ascii.eqb_refl.
  - apply orb_false_iff in Hw as [Hc Hw].
    rewrite Ascii.eqb_sym in Hc. rewrite Hc, IH; trivial.
Qed.

(** Taking the optional [s] or not, the class under [+] ends at the same
    place: the group is [http] and the whole run after it. *)
Lemma opt_s_then_plus_eq (s : string) :
  Re.opt_s_then_plus s = Re.nonquote_plus s.
Proof.
  destruct s as [|c s]; trivial. simpl.
  destruct (Ascii.eqb_spec c "s"%char) as [->|Hne]; trivial.
  unfold Re.nonquote_plus. simpl.
  destruct (Re.span_nonquote s) as [w r]. simpl. now destruct w.
Qed.

Lemma nonquote_plus_iff (s w : string) :
  Re.nonquote_plus s = Some w <->
  w <> EmptyString /\ w = fst (Re.span_nonquote s).
Proof.
  unfold Re.nonquote_plus.
  destruct (fst (Re.span_nonquote s)) as [|c w'].
  - split; [discriminate|]. intros [Hne ->]. congruence.
  - split.
    + intros E. injection E as <-. split; [discriminate | reflexivity].
    + intros [_ ->]. reflexivity.
Qed.

(** What a match is: the literal text, then a value that begins with
    [http], has at least five characters and no double quote, and is
    followed by a double quote or by the end of the text. *)
Lemma match_at_iff (s u : string) :
  Re.match_at s = Some u <->
  exists r,
    s = Re.anchor +++ u +++ r
    /\ Str.startswith u "http" = true
    /\ (5 <= String.length u)%nat
    /\ Str.mem Str.dquote u = false
    /\ (r = EmptyString \/ Str.startswith r Str.q = true).
Proof.
  unfold Re.match_at. split.
  - destruct (Str.strip_prefix Re.anchor s) as [r0|] eqn:E0; [|discriminate].
    destruct (Str.strip_prefix "http" r0) as [r1|] eqn:E1; [|discriminate].
    rewrite opt_s_then_plus_eq.
    destruct (Re.nonquote_plus r1) as [w|] eqn:E2; [|discriminate].
    intros E. injection E as <-.
    apply StrFacts.strip_prefix_iff in E0, E1.
    apply nonquote_plus_iff in E2 as [Hne Hw].
    destruct (span_nonquote_spec r1) as [Hs [Hq Hr]].
    rewrite <- Hw in Hs, Hq.
    set (rest := snd (Re.span_nonquote r1)) in *.
    exists rest. split; [|split; [|split; [|split]]].
    + rewrite E0, E1, Hs. reflexivity.
    + reflexivity.
    + destruct w; [congruence|]. simpl. lia.
    + exact Hq.
    + destruct Hr as [Hr | [r Hr]]; [now left|]. right. rewrite Hr.
      unfold Str.q. cbn [Str.startswith]. now rewrite Ascii.eqb_refl.
  - intros [r [-> [Hh [Hlen [Hq Hr]]]]].
    rewrite StrFacts.strip_prefix_append.
    apply StrFacts.startswith_iff in Hh as [w ->].
    rewrite StrFacts.append_assoc, StrFacts.strip_prefix_append.
    rewrite opt_s_then_plus_eq.
    assert (Re.nonquote_plus (w +++ r) = Some w) as ->; trivial.
    apply nonquote_plus_iff. simpl in Hq.
    rewrite span_nonquote_run; trivial. split; trivial.
    intros ->. simpl in Hlen. lia.
Qed.

Lemma finditer_from_skip (k : nat) (s : string) :
  Re.finditer_from k s = Re.finditer_from 0 (Str.drop k s).
Proof.
  revert k. induction s as [|c s IH]; intros [|k]; trivial.
  simpl Re.finditer_from at 1. now rewrite IH.
Qed.

(** One step of the scan at a character [c]: a match is taken and the
    search resumes after it, or the search moves on by one character. *)
Lemma finditer_step (c : ascii) (s : string) :
  Re.finditer (String c s)
  = match Re.match_at (String c s) with
    | Some u =>
        u :: Re.finditer
               (Str.drop (String.length Re.anchor + String.length u)
                         (String c s))
    | None => Re.finditer s
    end.
Proof.
  unfold Re.finditer. simpl Re.finditer_from at 1.
  destruct (Re.match_at (String c s)) as [u|]; trivial.
  now rewrite finditer_from_skip.
Qed.

(** Every URL found stands in the text right after the literal text of
    the pattern, and has the form of a match. *)
Lemma finditer_from_sound (u : string) (s : string) (k : nat) :
  In u (Re.finditer_from k s) ->
  exists pre post,
    s = pre +++ Re.anchor +++ u +++ post
    /\ Str.startswith u "http" = true
    /\ (5 <= String.length u)%nat
    /\ Str.mem Str.dquote u = false
    /\ (post = EmptyString \/ Str.startswith post Str.q = true).
Proof.
  revert k. induction s as [|c s IH]; intros k Hin; [contradiction|].
  assert (forall k', In u (Re.finditer_from k' s) ->
            exists pre post,
              String c s = pre +++ Re.anchor +++ u +++ post
              /\ Str.startswith u "http" = true
              /\ (5 <= String.length u)%nat
              /\ Str.mem Str.dquote u = false
              /\ (post = EmptyString \/ Str.startswith post Str.q = true))
    as Htail.
  { intros k' Hk'. destruct (IH k' Hk') as [pre [post [-> Hrest]]].
    now exists (String c pre), post. }
  simpl in Hin. destruct k as [|k]; [|eauto].
  destruct (Re.match_at (String c s)) as [u'|] eqn:Hm; [|eauto].
  destruct Hin as [-> | Hin]; [|eauto].
  apply match_at_iff in Hm as [r Hr]. now exists EmptyString, r.
Qed.

Lemma finditer_sound (u body : string) :
  In u (Re.finditer body) ->
  exists pre post,
    body = pre +++ Re.anchor +++ u +++ post
    /\ Str.startswith u "http" = true
    /\ (5 <= String.length u)%nat
    /\ Str.mem Str.dquote u = false
    /\ (post = EmptyString \/ Str.startswith post Str.q = true).
Proof. apply finditer_from_sound. Qed.

Lemma append_eq_append (a b c d : string) :
  a +++ b = c +++ d ->
  (exists m, c = a +++ m /\ b = m +++ d)
  \/ (exists m, a = c +++ m /\ d = m +++ b).
Proof.
  revert c. induction a as [|x a IH]; intros c E; simpl in E.
  - left. now exists c.
  - destruct c as [|y c]; simpl in E.
    + right. now exists (String x a).
    + injection E as -> E. destruct (IH c E) as [[m [-> ->]] | [m [-> ->]]].
      * left. now exists m.
      * right. now exists m.
Qed.

Lemma first_char_append (c : ascii) (m r : string) (t : string) :
  String c t = m +++ r -> m <> EmptyString -> exists m', m = String c m'.
Proof.
  destruct m as [|x m]; [congruence|]. simpl. intros E _.
  injection E as -> _. now exists m.
Qed.

Lemma anchors_closed_head (y : string) :
  anchors_closed (Re.anchor +++ y) = true -> Str.mem Str.dquote y = true.
Proof.
  intros E. change (Re.anchor +++ y) with (String "<" (Str.drop 1 Re.anchor +++ y)) in E.
  cbn [anchors_closed] in E. apply andb_true_iff in E as [E _].
  change (String "<" (Str.drop 1 Re.anchor +++ y)) with (Re.anchor +++ y) in E.
  now rewrite StrFacts.strip_prefix_append in E.
Qed.

Lemma anchors_closed_tail (c : ascii) (s : string) :
  anchors_closed (String c s) = true -> anchors_closed s = true.
Proof. cbn [anchors_closed]. intros E. now apply andb_true_iff in E. Qed.

Lemma anchors_closed_suffix (x r : string) :
  anchors_closed (x +++ r) = true -> anchors_closed r = true.
Proof.
  induction x as [|c x IH]; trivial. simpl String.append. intros E.
  apply IH. now apply anchors_closed_tail in E.
Qed.

(** The condition says what its name says. *)
Lemma anchors_closed_iff (s : string) :
  anchors_closed s = true <->
  forall x y, s = x +++ Re.anchor +++ y -> Str.mem Str.dquote y = true.
Proof.
  split.
  - intros E x y ->. apply anchors_closed_suffix in E.
    now apply anchors_closed_head.
  - induction s as [|c s IH]; intros Hall.
    + reflexivity.
    + cbn [anchors_closed]. apply andb_true_iff. split.
      * destruct (Str.strip_prefix Re.anchor (String c s)) as [rest|] eqn:E;
          trivial.
        apply StrFacts.strip_prefix_iff in E. apply (Hall EmptyString). exact E.
      * apply IH. intros x y E. apply (Hall (String c x)). simpl. now rewrite E.
Qed.

(** No character of the literal text after its first is the first. *)
Lemma anchor_no_inner_lt (a m : string) (c : ascii) :
  Re.anchor = String c a +++ String "<" m -> False.
Proof.
  intros E. assert (Str.mem "<" (Str.drop 1 Re.anchor) = true) as Hm.
  { rewrite E. simpl Str.drop. rewrite StrFacts.mem_append. simpl.
    apply orb_true_r. }
  discriminate.
Qed.

(** A match that starts in closed text is the same whatever follows the
    text, when what follows begins a new element. *)
Lemma match_at_app_closed (c : ascii) (pre s : string) :
  anchors_closed (String c pre) = true ->
  Str.startswith s "<" = true ->
  Re.match_at (String c pre +++ s) = Re.match_at (String c pre).
Proof.
  intros Hc Hs. apply StrFacts.startswith_iff in Hs as [s' ->].
  assert (forall u, Re.match_at (String c pre +++ "<" +++ s') = Some u
                    <-> Re.match_at (String c pre) = Some u) as Hiff.
  { intros u. rewrite !match_at_iff. split.
    - intros [r' [E [Hh [Hlen [Hq Hr]]]]].
      apply append_eq_append in E as [[m [Em Es]] | [m [Em Es]]].
      + exfalso. destruct m as [|x m].
        * simpl in Es. apply StrFacts.startswith_iff in Hh as [w ->].
          discriminate.
        * simpl in Es. injection Es as <- _.
          now apply anchor_no_inner_lt in Em.
      + assert (Str.mem Str.dquote m = true) as Hm
            by (apply anchors_closed_head; now rewrite <- Em).
        symmetry in Es.
        apply append_eq_append in Es as [[m2 [Eu Es]] | [m2 [Em2 Er]]].
        * exfalso. rewrite Eu, StrFacts.mem_append, Hm in Hq. discriminate.
        * exists m2. split; [now rewrite Em, Em2|].
          split; trivial. split; trivial. split; trivial.
          right. rewrite Em2, StrFacts.mem_append, Hq in Hm. simpl in Hm.
          destruct m2 as [|x m2]; [discriminate|].
          destruct Hr as [-> | Hr]; [discriminate|].
          rewrite Er in Hr. exact Hr.
    - intros [r [E [Hh [Hlen [Hq Hr]]]]].
      assert (Str.mem Str.dquote (u +++ r) = true) as Hm
          by (apply anchors_closed_head; now rewrite <- E).
      rewrite StrFacts.mem_append, Hq in Hm. simpl in Hm.
      exists (r +++ "<" +++ s'). split.
      + now rewrite E, !StrFacts.append_assoc.
      + split; trivial. split; trivial. split; trivial. right.
        destruct Hr as [-> | Hr]; [discriminate|].
        destruct r as [|x r]; [discriminate|]. exact Hr. }
  destruct (Re.match_at (String c pre +++ "<" +++ s')) as [u|].
  - symmetry. now apply Hiff.
  - destruct (Re.match_at (String c pre)) as [u|]; trivial.
    destruct (Hiff u) as [_ Hback]. now rewrite Hback.
Qed.

(** The scan of closed text followed by a new element is the scan of the
    text followed by the scan of the rest. *)
Lemma finditer_app_closed (pre s : string) :
  anchors_closed pre = true ->
  Str.startswith s "<" = true ->
  Re.finditer (pre +++ s) = Re.finditer pre ++ Re.finditer s.
Proof.
  intros Hc Hs.
  remember (String.length pre) as n eqn:Hn.
  assert (String.length pre <= n)%nat as Hle by lia. clear Hn.
  revert pre Hc Hle. induction n as [|n IH]; intros pre Hc Hle.
  - destruct pre; [reflexivity | simpl in Hle; lia].
  - destruct pre as [|c pre]; [reflexivity|].
    change (String c pre +++ s) with (String c (pre +++ s)).
    rewrite !finditer_step.
    change (String c (pre +++ s)) with (String c pre +++ s).
    rewrite (match_at_app_closed c pre s Hc Hs).
    destruct (Re.match_at (String c pre)) as [u|] eqn:Hm.
    + apply match_at_iff in Hm as [r [E [_ [_ [Hq _]]]]].
      rewrite E.
      rewrite <- !StrFacts.append_assoc.
      rewrite <- (StrFacts.length_append Re.anchor u).
      rewrite (StrFacts.append_assoc (Re.anchor +++ u) r s).
      rewrite !StrFacts.drop_append.
      simpl app. f_equal. apply IH.
      * rewrite E in Hc. rewrite <- StrFacts.append_assoc in Hc.
        now apply anchors_closed_suffix in Hc.
      * rewrite E in Hle. rewrite !StrFacts.length_append in Hle.
        simpl in Hle. lia.
    + apply IH.
      * now apply anchors_closed_tail in Hc.
      * simpl in Hle. lia.
Qed.

(** A well-formed link after closed text is found, with its value up to
    the closing double quote. *)
Lemma finditer_link (pre v post : string) :
  anchors_closed pre = true ->
  Str.startswith v "http" = true ->
  (5 <= String.length v)%nat ->
  Str.mem Str.dquote v = false ->
  Re.finditer (pre +++ Re.anchor +++ v +++ Str.q +++ post)
  = Re.finditer pre ++ v :: Re.finditer post.
Proof.
  intros Hc Hh Hlen Hq.
  rewrite finditer_app_closed by (trivial; reflexivity).
  f_equal.
  change (Re.anchor +++ v +++ Str.q +++ post)
    with (String "<" (Str.drop 1 Re.anchor +++ v +++ Str.q +++ post)).
  rewrite finditer_step.
  change (String "<" (Str.drop 1 Re.anchor +++ v +++ Str.q +++ post))
    with (Re.anchor +++ v +++ Str.q +++ post).
  assert (Re.match_at (Re.anchor +++ v +++ Str.q +++ post) = Some v) as ->.
  { apply match_at_iff. exists (Str.q +++ post). repeat split; trivial.
    right. unfold Str.q. cbn [String.append Str.startswith].
    now rewrite Ascii.eqb_refl. }
  f_equal.
  rewrite <- (StrFacts.append_assoc Re.anchor v).
  rewrite <- (StrFacts.length_append Re.anchor v).
  rewrite StrFacts.drop_append.
  change (Str.q +++ post) with (String Str.dquote post).
  rewrite finditer_step. reflexivity.
Qed.


End ReFacts.

(** ** Facts about the extractor *)

Module ExtractFacts.
Section WithLibraries.
Context `{Libraries}.
Import ExtractURLsFromAnswer.

Lemma seen_iff (u : string) (l : list string) : seen u l = true <-> In u l.
Proof.
  unfold seen. rewrite existsb_exists. split.
  - intros [x [Hx E]]. apply String.eqb_eq in E. now subst.
  - intros Hin. exists u. split; trivial. apply String.eqb_refl.
Qed.

Lemma linked_iff (u : string) (element : Row) :
  linked u element = true <-> In u (Re.finditer (body element)).
Proof. apply seen_iff. Qed.

(** The [continue] of the [try] block is taken exactly when the parse
    returns and the netloc it returns ends with the site's name. *)
Lemma skipped_iff (u : string) :
  skipped u = true <->
  exists parsed pre,
    urlparse u = Ok parsed /\ netloc parsed = pre +++ "stackoverflow.com".
Proof.
  unfold skipped. destruct (urlparse u) as [parsed|e].
  - rewrite StrFacts.endswith_iff. split.
    + intros [pre E]. now exists parsed, pre.
    + intros [p' [pre [E E']]]. injection E as <-. now exists pre.
  - split; [discriminate|]. intros [p' [pre [E _]]]. discriminate.
Qed.

Lemma skipped_raise (u : string) (e : PyException) :
  urlparse u = Raise e -> skipped u = false.
Proof. unfold skipped. now intros ->. Qed.

Lemma loop_In (element : Row) (matches seen_urls : list string)
      (u : string) (a : AnswerWithURL) :
  In (u, a) (loop element seen_urls matches) <->
  a = answer_with_url element /\ In u matches /\ ~ In u seen_urls
  /\ skipped u = false.
Proof.
  revert seen_urls.
  induction matches as [|m rest IH]; intros seen_urls; simpl.
  - tauto.
  - destruct (seen m seen_urls) eqn:Hseen.
    + apply seen_iff in Hseen. rewrite IH. intuition (subst; tauto).
    + assert (~ In m seen_urls) as Hm
          by (rewrite <- seen_iff; congruence).
      destruct (skipped m) eqn:Hskip; simpl; rewrite IH; simpl.
      * split.
        -- intros [-> [Hin [Hns Hsk]]]. intuition.
        -- intros [-> [[-> | Hin] [Hns Hsk]]]; [congruence|].
           split; trivial. split; trivial. split; trivial.
           intros [-> | Hin']; [|tauto]. congruence.
      * split.
        -- intros [E | [-> [Hin [Hns Hsk]]]].
           ++ injection E as -> <-. tauto.
           ++ intuition.
        -- intros [-> [[-> | Hin] [Hns Hsk]]]; [now left|].
           destruct (string_dec m u) as [-> | Hne]; [now left|].
           right. intuition.
Qed.

Lemma loop_fst_fresh (element : Row) (matches seen_urls : list string)
      (u : string) :
  In u (map fst (loop element seen_urls matches)) -> ~ In u seen_urls.
Proof.
  rewrite in_map_iff. intros [[u' a] [E Hin]]. simpl in E. subst u'.
  now apply loop_In in Hin.
Qed.

Lemma loop_NoDup (element : Row) (matches seen_urls : list string) :
  NoDup (map fst (loop element seen_urls matches)).
Proof.
  revert seen_urls.
  induction matches as [|m rest IH]; intros seen_urls; simpl.
  - constructor.
  - destruct (seen m seen_urls); [apply IH|].
    destruct (skipped m); [apply IH|].
    simpl. constructor; [|apply IH].
    intros Hin. apply loop_fst_fresh in Hin. apply Hin. now left.
Qed.

(** What a row yields for a URL. *)
Lemma process_In (element : Row) (u : string) (a : AnswerWithURL) :
  In (u, a) (process element) <->
  a = answer_with_url element /\ In u (Re.finditer (body element))
  /\ skipped u = false.
Proof. unfold process. rewrite loop_In. simpl. tauto. Qed.

Lemma process_NoDup (element : Row) : NoDup (map fst (process element)).
Proof. apply loop_NoDup. Qed.

End WithLibraries.
End ExtractFacts.

(** ** Facts about grouping *)

Module BeamFacts.

Lemma fold_combine {V : Type} (els : list (El V)) (acc : list V) :
  fold_left
    (fun ret el => match el with Many l => ret ++ l | One v => ret ++ [v] end)
    els acc
  = acc ++ combine_pcollection_to_list els.
Proof.
  unfold combine_pcollection_to_list. revert acc.
  induction els as [|el els IH]; intros acc; simpl.
  - now rewrite app_nil_r.
  - rewrite IH. rewrite (IH (match el with Many l => l | One v => [v] end)).
    destruct el; now rewrite <- app_assoc.
Qed.

Lemma combine_cons {V : Type} (el : El V) (els : list (El V)) :
  combine_pcollection_to_list (el :: els)
  = match el with Many l => l | One v => [v] end
    ++ combine_pcollection_to_list els.
Proof.
  unfold combine_pcollection_to_list at 1. simpl. rewrite fold_combine.
  now destruct el.
Qed.

(** Combining values gives the values. *)
Lemma combine_values {V : Type} (l : list V) :
  combine_pcollection_to_list (map One l) = l.
Proof.
  induction l as [|v l IH]; trivial.
  simpl map. rewrite combine_cons, IH. reflexivity.
Qed.

Lemma combine_app {V : Type} (a b : list (El V)) :
  combine_pcollection_to_list (a ++ b)
  = combine_pcollection_to_list a ++ combine_pcollection_to_list b.
Proof.
  induction a as [|el a IH]; trivial.
  simpl app. rewrite !combine_cons, IH. now rewrite app_assoc.
Qed.

(** A list that an earlier call returned stands for its elements: the
    function may be applied to partial results. *)
Lemma combine_partial {V : Type} (a b : list (El V)) :
  combine_pcollection_to_list (Many (combine_pcollection_to_list a) :: b)
  = combine_pcollection_to_list (a ++ b).
Proof. now rewrite combine_cons, combine_app. Qed.

Lemma keys_NoDup {V : Type} (pc : list (string * V)) : NoDup (Beam.keys pc).
Proof. apply NoDup_nodup. Qed.

Lemma keys_In {V : Type} (pc : list (string * V)) (k : string) :
  In k (Beam.keys pc) <-> In k (map fst pc).
Proof. apply nodup_In. Qed.

Lemma values_of_app {V : Type} (k : string) (a b : list (string * V)) :
  Beam.values_of k (a ++ b) = Beam.values_of k a ++ Beam.values_of k b.
Proof. unfold Beam.values_of. now rewrite filter_app, map_app. Qed.

Lemma values_of_absent {V : Type} (k : string) (pc : list (string * V)) :
  ~ In k (map fst pc) -> Beam.values_of k pc = [].
Proof.
  induction pc as [|[k' v] pc IH]; trivial. simpl. intros Hn.
  unfold Beam.values_of. simpl.
  destruct (String.eqb_spec k' k) as [->|Hne]; [tauto|].
  apply IH. tauto.
Qed.

(** Where the keys are distinct, a key holds the one value paired with it. *)
Lemma values_of_NoDup {V : Type} (k : string) (v : V) (pc : list (string * V)) :
  NoDup (map fst pc) -> In (k, v) pc -> Beam.values_of k pc = [v].
Proof.
  induction pc as [|[k' v'] pc IH]; [contradiction|].
  simpl. intros Hnd Hin. inversion Hnd as [|? ? Hk Hnd']; subst.
  unfold Beam.values_of. simpl. destruct Hin as [E | Hin].
  - injection E as -> ->. rewrite String.eqb_refl. simpl. f_equal.
    now apply values_of_absent.
  - destruct (String.eqb_spec k' k) as [->|Hne].
    + exfalso. apply Hk. apply in_map_iff. now exists (k, v).
    + now apply IH.
Qed.

Lemma CombinePerKey_keys {V : Type} (pc : list (string * V)) :
  map fst (Beam.CombinePerKey combine_pcollection_to_list pc) = Beam.keys pc.
Proof.
  unfold Beam.CombinePerKey. rewrite map_map. simpl. apply map_id.
Qed.

Lemma CombinePerKey_In {V : Type} (pc : list (string * V))
      (k : string) (vs : list V) :
  In (k, vs) (Beam.CombinePerKey combine_pcollection_to_list pc) <->
  In k (map fst pc) /\ vs = Beam.values_of k pc.
Proof.
  unfold Beam.CombinePerKey. rewrite in_map_iff. split.
  - intros [k' [E Hin]]. injection E as -> <-.
    rewrite combine_values. now rewrite <- keys_In.
  - intros [Hin ->]. exists k. rewrite combine_values.
    now rewrite keys_In.
Qed.

End BeamFacts.

(** ** Facts about the sort *)

Module SortFacts.
Section WithKey.
Context {A : Type} (key : A -> Z).

Lemma insert_desc_perm (x : A) (l : list A) :
  Permutation (insert_desc key x l) (x :: l).
Proof.
  induction l as [|y l IH]; simpl; trivial.
  destruct (key y <=? key x)%Z; trivial.
  rewrite IH. apply perm_swap.
Qed.

Lemma sort_reverse_perm (l : list A) : Permutation (sort_reverse key l) l.
Proof.
  induction l as [|x l IH]; simpl; trivial.
  rewrite insert_desc_perm. now constructor.
Qed.

Lemma insert_desc_sorted (x : A) (l : list A) :
  StronglySorted (ge_key key) l -> StronglySorted (ge_key key) (insert_desc key x l).
Proof.
  induction 1 as [|y l Hs IH Hall]; simpl.
  - repeat constructor.
  - destruct (Z.leb_spec (key y) (key x)) as [Hle|Hgt].
    + constructor; [now constructor|].
      constructor; trivial.
      eapply Forall_impl; [|exact Hall]. unfold ge_key. intros; lia.
    + constructor; trivial.
      eapply Permutation_Forall;
        [symmetry; apply insert_desc_perm|].
      constructor; trivial. unfold ge_key. lia.
Qed.

Lemma sort_reverse_sorted (l : list A) :
  StronglySorted (ge_key key) (sort_reverse key l).
Proof.
  induction l as [|x l IH]; simpl; [constructor|].
  now apply insert_desc_sorted.
Qed.

(** In a sorted list every element is at least the one after it. *)
Lemma sorted_adjacent (l : list A) :
  StronglySorted (ge_key key) l ->
  forall i a b, nth_error l i = Some a -> nth_error l (S i) = Some b ->
                (key b <= key a)%Z.
Proof.
  induction 1 as [|y l Hs IH Hall]; intros i a b Ha Hb.
  - destruct i; discriminate.
  - destruct i as [|i]; simpl in Ha, Hb.
    + injection Ha as <-. rewrite Forall_forall in Hall.
      apply Hall. destruct l; [discriminate|]. simpl in Hb.
      injection Hb as <-. now left.
    + eapply IH; eauto.
Qed.

(** The sort is stable: the elements of one key keep their order. *)
Lemma insert_desc_filter (k : Z) (x : A) (l : list A) :
  filter (fun y => (key y =? k)%Z) (insert_desc key x l)
  = filter (fun y => (key y =? k)%Z) (x :: l).
Proof.
  induction l as [|y l IH]; trivial.
  simpl insert_desc. destruct (Z.leb_spec (key y) (key x)) as [Hle|Hgt]; trivial.
  simpl in *. rewrite IH.
  destruct (Z.eqb_spec (key x) k), (Z.eqb_spec (key y) k); trivial. lia.
Qed.

Lemma sort_reverse_stable (k : Z) (l : list A) :
  filter (fun y => (key y =? k)%Z) (sort_reverse key l)
  = filter (fun y => (key y =? k)%Z) l.
Proof.
  induction l as [|x l IH]; trivial.
  simpl sort_reverse. rewrite insert_desc_filter. simpl. now rewrite IH.
Qed.

End WithKey.

Lemma filter_perm {A : Type} (p : A -> bool) (l l' : list A) :
  Permutation l l' -> Permutation (filter p l) (filter p l').
Proof.
  induction 1; simpl; trivial.
  - destruct (p x); auto.
  - destruct (p x), (p y); auto. apply perm_swap.
  - etransitivity; eauto.
Qed.

(** A filter that keeps one element of a list keeps that element of any
    rearrangement of it. *)
Lemma filter_singleton_perm {A : Type} (p : A -> bool) (l l' : list A) (x : A) :
  Permutation l l' -> filter p l = [x] -> filter p l' = [x].
Proof.
  intros Hp E. apply (filter_perm p) in Hp. rewrite E in Hp.
  now apply Permutation_length_1_inv in Hp.
Qed.

Lemma filter_nil_perm {A : Type} (p : A -> bool) (l l' : list A) :
  Permutation l l' -> filter p l = [] -> filter p l' = [].
Proof.
  intros Hp E. apply (filter_perm p) in Hp. rewrite E in Hp.
  now apply Permutation_nil in Hp.
Qed.

End SortFacts.

(** ** Facts about lists keyed by a string *)

Module KeyFacts.
Section WithKey.
Context {A : Type} (f : A -> string).

Lemma filter_key_absent (u : string) (l : list A) :
  ~ In u (map f l) -> filter (fun y => String.eqb (f y) u) l = [].
Proof.
  induction l as [|y l IH]; trivial. simpl. intros Hn.
  destruct (String.eqb_spec (f y) u) as [E|Hne]; [tauto|].
  apply IH. tauto.
Qed.

Lemma filter_key_NoDup (x : A) (l : list A) :
  NoDup (map f l) -> In x l ->
  filter (fun y => String.eqb (f y) (f x)) l = [x].
Proof.
  induction l as [|y l IH]; [contradiction|].
  simpl. intros Hnd Hin. inversion Hnd as [|? ? Hy Hnd']; subst.
  destruct Hin as [-> | Hin].
  - rewrite String.eqb_refl. f_equal. now apply filter_key_absent.
  - destruct (String.eqb_spec (f y) (f x)) as [E|Hne].
    + exfalso. apply Hy. rewrite E. now apply in_map.
    + now apply IH.
Qed.

Lemma filter_key_In (u : string) (l : list A) :
  filter (fun y => String.eqb (f y) u) l = [] -> ~ In u (map f l).
Proof.
  intros E Hin. apply in_map_iff in Hin as [y [Ey Hy]].
  assert (In y (filter (fun y => String.eqb (f y) u) l)) as Hf.
  { apply filter_In. split; trivial. now apply String.eqb_eq. }
  now rewrite E in Hf.
Qed.

End WithKey.
End KeyFacts.

(** ** Facts about the pipeline *)

Module PipelineFacts.
Section WithLibraries.
Context `{Libraries}.
Import CheckURLReturns200.

Lemma process_run (u : string) (refs : list AnswerWithURL) (log : list Request) :
  process (u, refs) log
  = ([result_of u refs (requests_head log (request_for u))],
     log ++ [request_for u]).
Proof.
  unfold process, bind, head, ret, result_of.
  now destruct (requests_head log (request_for u)).
Qed.

Lemma result_of_url (u : string) (refs : list AnswerWithURL)
      (o : Result Response) :
  url (result_of u refs o) = u /\ answerURLs (result_of u refs o) = refs.
Proof.
  destruct o as [resp|e]; simpl; auto.
  unfold record_response. now destruct (Requests.raise_for_status resp).
Qed.

Lemma for_each_cons {A B : Type} (p : A -> Net (list B)) (a : A)
      (rest : list A) (log : list Request) :
  for_each p (a :: rest) log
  = let (out, log') := p a log in
    let (outs, log'') := for_each p rest log' in
    (out ++ outs, log'').
Proof. reflexivity. Qed.

Lemma for_each_process (groups : list (string * list AnswerWithURL))
      (log : list Request) :
  snd (for_each process groups log)
  = log ++ map (fun g => request_for (fst g)) groups
  /\ Forall2 checked groups (fst (for_each process groups log)).
Proof.
  revert log. induction groups as [|[u refs] groups IH]; intros log.
  - simpl. rewrite app_nil_r. split; [reflexivity | constructor].
  - destruct (IH (log ++ [request_for u])) as [IHlog IHres].
    rewrite for_each_cons, process_run.
    destruct (for_each process groups (log ++ [request_for u]))
      as [outs log'] eqn:E.
    simpl in *. split.
    + rewrite IHlog, <- app_assoc. reflexivity.
    + constructor; trivial. now exists log.
Qed.

Lemma checked_url g r : checked g r -> url r = fst g /\ answerURLs r = snd g.
Proof. intros [log ->]. apply result_of_url. Qed.

Lemma Forall2_checked_urls groups rs :
  Forall2 checked groups rs -> map url rs = map fst groups.
Proof.
  induction 1 as [|g r groups rs Hc _ IH]; trivial.
  simpl. f_equal; trivial. now apply checked_url.
Qed.

Lemma Forall2_checked_In groups rs r :
  Forall2 checked groups rs -> In r rs ->
  exists g, In g groups /\ checked g r.
Proof.
  induction 1 as [|g r' groups rs Hc _ IH]; [contradiction|].
  intros [-> | Hin].
  - exists g. split; [now left | trivial].
  - destruct (IH Hin) as [g' [Hg Hc']]. exists g'. split; [now right | trivial].
Qed.

(** The results and the requests follow the groups, one for one. *)
Lemma results_urls (rows : list Row) :
  map url (results_of rows) = map fst (url_groups rows).
Proof.
  unfold results_of, responses.
  apply Forall2_checked_urls, for_each_process.
Qed.

Lemma probes_urls (rows : list Row) :
  map req_url (probes_of rows) = map fst (url_groups rows).
Proof.
  unfold probes_of, responses.
  destruct (for_each_process (url_groups rows) []) as [-> _].
  simpl. now rewrite map_map.
Qed.

Lemma results_In (rows : list Row) (r : AnswerURLCheckResult) :
  In r (results_of rows) ->
  exists g, In g (url_groups rows) /\ checked g r.
Proof.
  unfold results_of, responses. intros Hin.
  eapply Forall2_checked_In; eauto. apply for_each_process.
Qed.

Lemma url_groups_keys (rows : list Row) :
  map fst (url_groups rows)
  = Beam.keys (Beam.ParDo ExtractURLsFromAnswer.process rows).
Proof. apply BeamFacts.CombinePerKey_keys. Qed.

Lemma url_groups_NoDup (rows : list Row) : NoDup (map fst (url_groups rows)).
Proof. rewrite url_groups_keys. apply BeamFacts.keys_NoDup. Qed.

(** The URLs that reach the grouping: those a row links to and the
    extractor does not skip. *)
Lemma extracted_iff (rows : list Row) (u : string) :
  In u (map fst (Beam.ParDo ExtractURLsFromAnswer.process rows)) <->
  exists element,
    In element rows /\ linked u element = true
    /\ ExtractURLsFromAnswer.skipped u = false.
Proof.
  unfold Beam.ParDo. rewrite in_map_iff. split.
  - intros [[u' a] [E Hin]]. simpl in E. subst u'.
    apply in_flat_map in Hin as [element [Hel Hin]].
    apply ExtractFacts.process_In in Hin as [_ [Hm Hs]].
    exists element. now rewrite ExtractFacts.linked_iff.
  - intros [element [Hel [Hl Hs]]].
    exists (u, ExtractURLsFromAnswer.answer_with_url element).
    split; trivial. apply in_flat_map. exists element. split; trivial.
    apply ExtractFacts.process_In. now rewrite <- ExtractFacts.linked_iff.
Qed.

Lemma group_keys_iff (rows : list Row) (u : string) :
  In u (map fst (url_groups rows)) <->
  exists element,
    In element rows /\ linked u element = true
    /\ ExtractURLsFromAnswer.skipped u = false.
Proof. now rewrite url_groups_keys, BeamFacts.keys_In, extracted_iff. Qed.

(** The references grouped under a URL: one per row that links to it. *)
Lemma values_of_process (u : string) (element : Row) :
  ExtractURLsFromAnswer.skipped u = false ->
  Beam.values_of u (ExtractURLsFromAnswer.process element)
  = if linked u element
    then [ExtractURLsFromAnswer.answer_with_url element] else [].
Proof.
  intros Hs. destruct (linked u element) eqn:Hl.
  - apply BeamFacts.values_of_NoDup; [apply ExtractFacts.process_NoDup|].
    apply ExtractFacts.process_In. now rewrite <- ExtractFacts.linked_iff.
  - apply BeamFacts.values_of_absent. rewrite in_map_iff.
    intros [[u' a] [E Hin]]. simpl in E. subst u'.
    apply ExtractFacts.process_In in Hin as [_ [Hm _]].
    apply ExtractFacts.linked_iff in Hm. congruence.
Qed.

Lemma values_of_rows (u : string) (rows : list Row) :
  ExtractURLsFromAnswer.skipped u = false ->
  Beam.values_of u (Beam.ParDo ExtractURLsFromAnswer.process rows)
  = map ExtractURLsFromAnswer.answer_with_url (rows_linking u rows).
Proof.
  intros Hs. induction rows as [|element rows IH]; trivial.
  unfold Beam.ParDo in *. simpl flat_map.
  rewrite BeamFacts.values_of_app, IH, values_of_process by trivial.
  simpl. now destruct (linked u element).
Qed.

Lemma linking_rows_nonempty (rows : list Row) (element : Row) (u : string) :
  In element rows -> In u (Re.finditer (body element)) ->
  rows_linking u rows <> [].
Proof.
  intros Hel Hin E.
  assert (In element (rows_linking u rows)) as Hf.
  { apply filter_In. split; trivial. now apply ExtractFacts.linked_iff. }
  now rewrite E in Hf.
Qed.

(** A URL that is not skipped and that some row links to has one result:
    the check of the references of the rows that link to it. *)
Lemma kept_url_result (rows : list Row) (u : string) :
  ExtractURLsFromAnswer.skipped u = false ->
  rows_linking u rows <> [] ->
  exists r log,
    results_for u (results_of rows) = [r]
    /\ r = result_of u
             (map ExtractURLsFromAnswer.answer_with_url (rows_linking u rows))
             (requests_head log (request_for u)).
Proof.
  intros Hs Hk.
  assert (In u (map fst (url_groups rows))) as Hg.
  { apply group_keys_iff.
    destruct (rows_linking u rows) as [|el l] eqn:E; [congruence|].
    assert (In el (rows_linking u rows)) as Hel by (rewrite E; now left).
    apply filter_In in Hel as [Hel Hl]. now exists el. }
  assert (In u (map url (results_of rows))) as Hu
      by now rewrite results_urls.
  apply in_map_iff in Hu as [r [Er Hr]].
  destruct (results_In rows r Hr) as [[u' vs] [Hin [log Hc]]].
  simpl in Hc.
  assert (u' = u) as ->.
  { rewrite <- Er, Hc. symmetry. apply result_of_url. }
  apply BeamFacts.CombinePerKey_In in Hin as [_ ->].
  rewrite values_of_rows in Hc by trivial.
  exists r, log. split; trivial.
  unfold results_for. rewrite <- Er.
  apply (KeyFacts.filter_key_NoDup url); trivial.
  rewrite results_urls. apply url_groups_NoDup.
Qed.

End WithLibraries.
End PipelineFacts.

(** ** Facts about the checker and the two views *)

Module CheckFacts.
Section WithLibraries.
Context `{Libraries}.
Import CheckURLReturns200.

Lemma result_of_raise (u : string) (refs : list AnswerWithURL) (e : PyException) :
  result_of u refs (Raise e)
  = mkAnswerURLCheckResult u refs None
      (Some (exc_type_name e)) (Some (exc_str e)) None.
Proof. reflexivity. Qed.

Lemma raise_for_status_iff (resp : Response) :
  (exists e, Requests.raise_for_status resp = Raise e)
  <-> is_4xx_5xx (status_code resp) = true.
Proof.
  unfold Requests.raise_for_status, is_4xx_5xx.
  destruct (Z.leb_spec 400 (status_code resp)),
           (Z.ltb_spec (status_code resp) 500),
           (Z.leb_spec 500 (status_code resp)),
           (Z.ltb_spec (status_code resp) 600); simpl;
    try lia;
    (split; [intros [e E]; (discriminate || reflexivity)
            | intros E; (discriminate || eauto)]).
Qed.

(** After a response the status and the time are recorded, and the error
    fields are set exactly for the statuses on which [raise_for_status]
    raises. *)
Lemma result_of_response (u : string) (refs : list AnswerWithURL)
      (resp : Response) :
  let r := result_of u refs (Ok resp) in
  status r = Some (status_code resp)
  /\ req_time_secs r = Some (elapsed resp)
  /\ (err_type r <> None <-> is_4xx_5xx (status_code resp) = true)
  /\ (err_type r = None <-> err_details r = None).
Proof.
  simpl. unfold record_response.
  pose proof (raise_for_status_iff resp) as Hr.
  destruct (Requests.raise_for_status resp) as [[]|e]; simpl.
  - repeat split; trivial; try congruence.
    intros E. apply Hr in E as [e E]. discriminate.
  - repeat split; trivial; try congruence.
    intros _. apply Hr. eauto.
Qed.

Lemma is_2xx_not_error (code : Z) : is_2xx code = true -> is_4xx_5xx code = false.
Proof. unfold is_2xx, is_4xx_5xx. lia. Qed.

Lemma jsonify (pcoll : list AnswerURLCheckResult) :
  JsonifyAnswerURLCheckResults pcoll = [json_encode pcoll].
Proof.
  unfold JsonifyAnswerURLCheckResults, Beam.Map, Beam.CombineGlobally.
  simpl. now rewrite BeamFacts.combine_values.
Qed.

(** The two documents, from the results of the run. *)
Lemma views (rows : list Row) :
  failures_view rows = json_encode (filter is_failure (results_of rows))
  /\ all_results_view rows = json_encode (results_of rows).
Proof.
  unfold failures_view, all_results_view, outputs_of, results_of, run, bind.
  destruct (responses rows []) as [resp log].
  cbn [fst ret failures all_responses]. unfold Beam.Filter.
  rewrite !jsonify. simpl. now rewrite !app_nil_r.
Qed.

Lemma filter_to_dict (p : ResultDict -> bool) (l : list AnswerURLCheckResult) :
  filter p (map AnswerURLCheckResult.to_dict l)
  = map AnswerURLCheckResult.to_dict
      (filter (fun r => p (AnswerURLCheckResult.to_dict r)) l).
Proof.
  induction l as [|r l IH]; trivial. simpl.
  destruct (p (AnswerURLCheckResult.to_dict r)); simpl; now rewrite IH.
Qed.

Lemma json_encode_perm (l : list AnswerURLCheckResult) :
  Permutation (json_encode l) (map AnswerURLCheckResult.to_dict l).
Proof. apply SortFacts.sort_reverse_perm. Qed.

Lemma json_encode_descending (l : list AnswerURLCheckResult) :
  descending (json_encode l).
Proof.
  unfold descending, json_encode.
  apply (SortFacts.sorted_adjacent answer_score_sum).
  apply SortFacts.sort_reverse_sorted.
Qed.

Lemma json_encode_urls (l : list AnswerURLCheckResult) (u : string) :
  In u (map d_url (json_encode l)) <-> In u (map url l).
Proof.
  assert (map d_url (map AnswerURLCheckResult.to_dict l) = map url l) as E
      by (rewrite map_map; reflexivity).
  rewrite <- E. split; apply Permutation_in, Permutation_map.
  - apply json_encode_perm.
  - symmetry. apply json_encode_perm.
Qed.

Lemma fold_left_add (l : list Z) (a : Z) :
  fold_left Z.add l a = (a + fold_right Z.add 0 l)%Z.
Proof.
  revert a. induction l as [|x l IH]; intros a; simpl; [lia|].
  rewrite IH. lia.
Qed.

Lemma sum_scores_total (l : list Row) :
  sum_scores (map ExtractURLsFromAnswer.answer_with_url l) = total_score l.
Proof.
  unfold sum_scores, total_score. rewrite map_map. simpl.
  now rewrite fold_left_add.
Qed.

End WithLibraries.
End CheckFacts.

(** ** The model on the inputs of the specification *)

Module Examples.

Example finditer_two_links :
  Re.finditer (body record_A)
  = ["https://example.com/x"; "https://stackoverflow.com/q/9"].
Proof. reflexivity. Qed.

(** A match that has no closing quote runs over the next element, which
    is then not found: matches do not overlap. *)
Example finditer_unclosed :
  Re.finditer (Re.anchor +++ "http://x" +++ a_href "http://y")
  = ["http://x<a href="].
Proof. reflexivity. Qed.

Example finditer_https_alone : Re.finditer (a_href "https") = ["https"].
Proof. reflexivity. Qed.

Example urlparse_site :
  Urllib.urlparse "https://stackoverflow.com/q/9"
  = Ok (mkParseResult "https" "stackoverflow.com").
Proof. reflexivity. Qed.

Example urlparse_spaces :
  Urllib.urlparse "http://bad url with spaces"
  = Ok (mkParseResult "http" "bad url with spaces").
Proof. reflexivity. Qed.

Example urlparse_bracket :
  Urllib.urlparse "http://[::1/x"
  = Raise (mkException "ValueError" "Invalid IPv6 URL").
Proof. reflexivity. Qed.

(** The netloc holds the port, so the test of the extractor reads it. *)
Example urlparse_port :
  Urllib.urlparse "https://stackoverflow.com:443/q/9"
  = Ok (mkParseResult "https" "stackoverflow.com:443")
  /\ @ExtractURLsFromAnswer.skipped (python (answering 200 "OK"))
       "https://stackoverflow.com:443/q/9" = false.
Proof. split; reflexivity. Qed.

(** The host is the netloc without user information and port, in lower
    case. *)
Example hostname_cases :
  UrllibHost.hostname "stackoverflow.com" = Some "stackoverflow.com"
  /\ UrllibHost.hostname "user:pw@StackOverflow.com:8080"
     = Some "stackoverflow.com"
  /\ UrllibHost.hostname "[::1]:80" = Some "::1"
  /\ UrllibHost.hostname ":80" = None.
Proof. repeat split. Qed.

(** The end-to-end example: one result for the shared URL, with two
    references and a score sum of 15, and none for the site's own URL. *)
Example end_to_end :
  @all_results_view (python (answering 200 "OK")) [record_A; record_B]
  = [mkResultDict 15 2 "https://example.com/x"
       [mkAnswerDict 10 1 "Question A" "https://stackoverflow.com/a/1";
        mkAnswerDict 5 2 "Question B" "https://stackoverflow.com/a/2"]
       (Some 200%Z) None None (Some (1 # 10))]
  /\ @failures_view (python (answering 200 "OK")) [record_A; record_B] = []
  /\ List.length (@probes_of (python (answering 200 "OK"))
                     [record_A; record_B]) = 1%nat.
Proof. repeat split. Qed.

(** On a network that is down every result is a failure, and the
    documents are ranked by score sum. *)
Example ranked_failures :
  map (fun d => (d_url d, answer_score_sum d, d_err_type d))
      (@failures_view (python (failing connection_error))
         [record_bad; record_A; record_B])
  = [("https://example.com/x", 15%Z, Some "ConnectionError");
     ("http://bad url with spaces", 4%Z, Some "ConnectionError")].
Proof. reflexivity. Qed.

Example sort_keeps_ties_in_order :
  sort_reverse snd [("a", 1%Z); ("b", 3%Z); ("c", 1%Z); ("d", 3%Z)]
  = [("b", 3%Z); ("d", 3%Z); ("a", 1%Z); ("c", 1%Z)].
Proof. reflexivity. Qed.

End Examples.

(** * The claims *)

(** ** C1: when the error kind is present *)

(** C1, as stated, fails: a HEAD request is answered with a redirect
    status (301), which is outside 200 to 299, and [raise_for_status]
    does not raise on it, so the result has a status that stands for a
    failure and no [err_type]. *)
Lemma redirect_status_without_error :
  ~ (forall r,
        In r (@results_of (python (answering 301 "Moved Permanently"))
                [record_B]) ->
        (err_type r <> None <-> represents_failure r)).
Proof.
  intros Hclaim.
  specialize (Hclaim
    (mkAnswerURLCheckResult "https://example.com/x"
       [mkAnswerWithURL 5 2 "Question B" "https://stackoverflow.com/a/2"]
       (Some 301%Z) None None (Some (1 # 10)))).
  destruct Hclaim as [_ Hback].
  - left. reflexivity.
  - apply Hback; reflexivity.
Qed.

(** C1, amended: for every result of a run, [err_type] is present
    exactly when the status is missing or is a status from 400 to 599
    (those on which [raise_for_status] raises); in particular a result
    with a status from 200 to 299 has no [err_type]. *)
Theorem error_kind_iff_no_status_or_4xx_5xx
        `{Libraries} (rows : list Row) (r : AnswerURLCheckResult) :
  In r (results_of rows) ->
  (err_type r <> None <->
   status r = None
   \/ exists code, status r = Some code /\ is_4xx_5xx code = true)
  /\ (forall code,
         status r = Some code -> is_2xx code = true ->
         err_type r = None /\ is_failure r = false).
Proof.
  intros Hin. apply PipelineFacts.results_In in Hin as [[u refs] [_ [log ->]]].
  simpl fst; simpl snd.
  destruct (requests_head log (CheckURLReturns200.request_for u)) as [resp|e].
  - destruct (CheckFacts.result_of_response u refs resp)
      as [Hst [_ [Herr _]]].
    split.
    + rewrite Herr, Hst. split.
      * intros E. right. eauto.
      * intros [E | [code [E E']]]; [discriminate|]. now injection E as <-.
    + intros code E H2. rewrite Hst in E. injection E as <-.
      apply CheckFacts.is_2xx_not_error in H2.
      assert (err_type (CheckURLReturns200.result_of u refs (Ok resp)) = None)
        as En.
      { destruct (err_type (CheckURLReturns200.result_of u refs (Ok resp)))
          eqn:E; trivial.
        assert (is_4xx_5xx (status_code resp) = true)
          by (apply Herr; congruence).
        congruence. }
      split; trivial. unfold is_failure. now rewrite En.
  - rewrite CheckFacts.result_of_raise. simpl. split.
    + split; [now left | discriminate].
    + discriminate.
Qed.

(** On a network that answers 404, the one result of the two records of
    the example carries an error kind. *)
Lemma error_kind_iff_no_status_or_4xx_5xx_witness :
  let r :=
    mkAnswerURLCheckResult "https://example.com/x"
      [mkAnswerWithURL 5 2 "Question B" "https://stackoverflow.com/a/2"]
      (Some 404%Z) (Some "HTTPError")
      (Some "404 Client Error: Not Found for url: https://example.com/x")
      (Some (1 # 10)) in
  In r (@results_of (python (answering 404 "Not Found")) [record_B])
  /\ (err_type r <> None <->
      status r = None
      \/ exists code, status r = Some code /\ is_4xx_5xx code = true).
Proof.
  split.
  - left. reflexivity.
  - apply (@error_kind_iff_no_status_or_4xx_5xx
             (python (answering 404 "Not Found")) [record_B]).
    left. reflexivity.
Defined.

(** ** C7: failures before or during transport *)

(** C7: when the request raises, the result of the check has [err_type]
    set to the name of the exception's type, [err_details] to its text,
    and neither a status nor a request time. *)
Theorem transport_failure_result
        `{Libraries} (u : string) (refs : list AnswerWithURL)
        (log : list Request) (e : PyException) :
  requests_head log (CheckURLReturns200.request_for u) = Raise e ->
  exists r,
    fst (CheckURLReturns200.process (u, refs) log) = [r]
    /\ url r = u
    /\ answerURLs r = refs
    /\ err_type r = Some (exc_type_name e)
    /\ err_details r = Some (exc_str e)
    /\ status r = None
    /\ req_time_secs r = None.
Proof.
  intros E. rewrite PipelineFacts.process_run, E. simpl.
  eexists. split; [reflexivity|]. simpl. repeat split.
Qed.

Lemma transport_failure_result_witness :
  exists r,
    fst (@CheckURLReturns200.process (python (failing connection_error))
           ("https://example.com/x", []) []) = [r]
    /\ url r = "https://example.com/x"
    /\ answerURLs r = []
    /\ err_type r = Some "ConnectionError"
    /\ err_details r = Some "Max retries exceeded"
    /\ status r = None
    /\ req_time_secs r = None.
Proof.
  apply (@transport_failure_result (python (failing connection_error))
           "https://example.com/x" [] [] connection_error).
  reflexivity.
Defined.

(** ** C4: the failures view *)

(** C4: the all-results document holds the serialized check results of
    the run, each once, and the failures document holds the serialized
    results whose [err_type] is set, each once: a result with an
    [err_type] is in the failures document, and an object of the failures
    document is a result of the run with an [err_type].  So the failures
    document holds exactly the objects of the all-results document whose
    [err_type] is set, each as often as there. *)
Theorem failures_view_is_the_errors `{Libraries} (rows : list Row) :
  (forall d,
      In d (failures_view rows) <->
      In d (all_results_view rows) /\ d_err_type d <> None)
  /\ Permutation (failures_view rows)
                 (filter has_error (all_results_view rows))
  /\ Permutation (all_results_view rows)
                 (map AnswerURLCheckResult.to_dict (results_of rows))
  /\ Permutation (failures_view rows)
                 (map AnswerURLCheckResult.to_dict
                      (filter is_failure (results_of rows)))
  /\ (forall r,
         In r (results_of rows) ->
         In (AnswerURLCheckResult.to_dict r) (all_results_view rows)
         /\ (In (AnswerURLCheckResult.to_dict r) (failures_view rows)
             <-> err_type r <> None))
  /\ (forall d,
         In d (failures_view rows) ->
         exists r,
           In r (results_of rows)
           /\ d = AnswerURLCheckResult.to_dict r
           /\ err_type r <> None).
Proof.
  destruct (CheckFacts.views rows) as [-> ->].
  assert (Permutation (json_encode (filter is_failure (results_of rows)))
                      (filter has_error (json_encode (results_of rows))))
    as Hperm.
  { etransitivity; [apply CheckFacts.json_encode_perm|].
    etransitivity;
      [|symmetry; apply SortFacts.filter_perm, CheckFacts.json_encode_perm].
    rewrite CheckFacts.filter_to_dict. reflexivity. }
  assert (forall r, is_failure r = true <-> err_type r <> None) as Hfail.
  { intros r. unfold is_failure. destruct (err_type r); split; congruence. }
  assert (forall d,
             In d (json_encode (filter is_failure (results_of rows))) ->
             exists r,
               In r (results_of rows)
               /\ d = AnswerURLCheckResult.to_dict r
               /\ err_type r <> None) as Hfrom.
  { intros d Hd.
    apply (Permutation_in _ (CheckFacts.json_encode_perm _)) in Hd.
    apply in_map_iff in Hd as [r [<- Hr]].
    apply filter_In in Hr as [Hr Hf]. exists r. split; trivial.
    split; trivial. now apply Hfail. }
  split; [|split; [exact Hperm|split; [|split; [|split; [|exact Hfrom]]]]].
  - intros d. split.
    + intros Hin. apply (Permutation_in _ Hperm) in Hin.
      apply filter_In in Hin as [Hin Herr]. split; trivial.
      unfold has_error in Herr. destruct (d_err_type d); congruence.
    + intros [Hin Herr]. apply (Permutation_in _ (Permutation_sym Hperm)).
      apply filter_In. split; trivial.
      unfold has_error. destruct (d_err_type d); congruence.
  - apply CheckFacts.json_encode_perm.
  - apply CheckFacts.json_encode_perm.
  - intros r Hr. split.
    + apply (Permutation_in _ (Permutation_sym (CheckFacts.json_encode_perm _))).
      now apply in_map.
    + split.
      * intros Hd. destruct (Hfrom _ Hd) as [r' [_ [E Hne]]].
        assert (err_type r = err_type r') as ->; trivial.
        change (d_err_type (AnswerURLCheckResult.to_dict r)
                = d_err_type (AnswerURLCheckResult.to_dict r')).
        now rewrite E.
      * intros Hne.
        apply (Permutation_in _
                 (Permutation_sym (CheckFacts.json_encode_perm _))).
        apply in_map. apply filter_In. split; trivial. now apply Hfail.
Qed.

(** ** C5: the order of the documents *)

(** C5: each document is the list of result objects sorted by
    [answer_score_sum] with [reverse=True]; of two objects that follow
    one another the first has a sum at least that of the second. *)
Theorem views_descend_by_score_sum `{Libraries} (rows : list Row) :
  descending (failures_view rows)
  /\ descending (all_results_view rows)
  /\ failures_view rows
     = sort_reverse answer_score_sum
         (map AnswerURLCheckResult.to_dict
              (filter is_failure (results_of rows)))
  /\ all_results_view rows
     = sort_reverse answer_score_sum
         (map AnswerURLCheckResult.to_dict (results_of rows))
  /\ StronglySorted (ge_key answer_score_sum) (failures_view rows)
  /\ StronglySorted (ge_key answer_score_sum) (all_results_view rows).
Proof.
  destruct (CheckFacts.views rows) as [-> ->].
  repeat split;
    try apply CheckFacts.json_encode_descending;
    apply SortFacts.sort_reverse_sorted.
Qed.

(** ** C3: what the extractor emits for a record *)

(** C3, as stated, fails: the body of the record holds the URL, as the
    target of a link the pattern finds, and the extractor emits no
    reference for it, because its netloc ends with the site's name. *)
Lemma self_link_is_contained_and_not_emitted :
  let u := "https://stackoverflow.com/q/9" in
  In u (Re.finditer (body record_so))
  /\ ~ (In u (map fst (@ExtractURLsFromAnswer.process
                         (python (answering 200 "OK")) record_so))
        <-> Str.contains (body record_so) u = true).
Proof.
  split.
  - left. reflexivity.
  - intros [_ Hback]. apply Hback. reflexivity.
Qed.

(** C3, amended: the extractor emits a reference pairing the record with
    a URL exactly when the pattern finds the URL in the record's body and
    the URL is not skipped as a link to the site itself; it emits no two
    references for one URL from one record; a URL it finds stands in the
    body, after the literal text of the pattern; and the set of seen URLs
    is the record's own, so a URL is emitted for every record of a
    collection that links to it. *)
Theorem extractor_emits_found_urls_once `{Libraries} (element : Row) :
  (forall u a,
      In (u, a) (ExtractURLsFromAnswer.process element) <->
      a = ExtractURLsFromAnswer.answer_with_url element
      /\ In u (Re.finditer (body element))
      /\ ExtractURLsFromAnswer.skipped u = false)
  /\ NoDup (map fst (ExtractURLsFromAnswer.process element))
  /\ (forall u,
         In u (Re.finditer (body element)) ->
         Str.contains (body element) (Re.anchor +++ u) = true)
  /\ (forall rows u,
         In element rows ->
         In u (Re.finditer (body element)) ->
         ExtractURLsFromAnswer.skipped u = false ->
         In (u, ExtractURLsFromAnswer.answer_with_url element)
            (Beam.ParDo ExtractURLsFromAnswer.process rows)).
Proof.
  split; [|split; [|split]].
  - intros u a. apply ExtractFacts.process_In.
  - apply ExtractFacts.process_NoDup.
  - intros u Hin. apply ReFacts.finditer_sound in Hin as [pre [post [E _]]].
    apply StrFacts.contains_iff. exists pre, post.
    now rewrite StrFacts.append_assoc.
  - intros rows u Hel Hin Hs. apply in_flat_map. exists element.
    split; trivial. now apply ExtractFacts.process_In.
Qed.

(** ** C6 and C9: links to the site itself *)

(** A URL whose parsed netloc ends with the site's name is emitted for
    no record, so no check result, no object of either document and no
    request is about it. *)
Theorem self_links_reach_no_result
        `{Libraries} (rows : list Row) (u : string) (parsed : ParseResult) :
  urlparse u = Ok parsed ->
  Str.endswith (netloc parsed) "stackoverflow.com" = true ->
  (forall element a, ~ In (u, a) (ExtractURLsFromAnswer.process element))
  /\ ~ In u (map url (results_of rows))
  /\ ~ In u (map d_url (all_results_view rows))
  /\ ~ In u (map d_url (failures_view rows))
  /\ ~ In u (map req_url (probes_of rows)).
Proof.
  intros Hp He.
  assert (ExtractURLsFromAnswer.skipped u = true) as Hs
      by (unfold ExtractURLsFromAnswer.skipped; now rewrite Hp).
  assert (~ In u (map fst (url_groups rows))) as Hg.
  { rewrite PipelineFacts.group_keys_iff. intros [el [_ [_ Hf]]]. congruence. }
  destruct (CheckFacts.views rows) as [Ef Ea].
  split; [|split; [|split; [|split]]].
  - intros element a Hin. apply ExtractFacts.process_In in Hin. 
    destruct Hin as [_ [_ Hf]]. congruence.
  - now rewrite PipelineFacts.results_urls.
  - rewrite Ea, CheckFacts.json_encode_urls.
    now rewrite PipelineFacts.results_urls.
  - rewrite Ef, CheckFacts.json_encode_urls. intros Hin.
    apply in_map_iff in Hin as [r [E Hin]]. apply filter_In in Hin as [Hin _].
    apply Hg. rewrite <- PipelineFacts.results_urls, <- E. now apply in_map.
  - now rewrite PipelineFacts.probes_urls.
Qed.

Lemma self_links_reach_no_result_witness :
  let u := "https://stackoverflow.com/q/9" in
  let L := python (answering 200 "OK") in
  let rows := [record_A; record_B] in
  Str.contains (body record_A) u = true
  /\ ~ In u (map url (@results_of L rows))
  /\ ~ In u (map d_url (@all_results_view L rows))
  /\ ~ In u (map req_url (@probes_of L rows)).
Proof.
  split; [reflexivity|].
  destruct (@self_links_reach_no_result (python (answering 200 "OK"))
              [record_A; record_B] "https://stackoverflow.com/q/9"
              (mkParseResult "https" "stackoverflow.com")
              eq_refl eq_refl)
    as [_ [Hr [Ha [_ Hp]]]].
  auto.
Defined.

(** C6: the code tests the netloc, not the host.  The link of
    [record_port] has the host [stackoverflow.com], which ends with the
    site's name; its netloc holds the port and does not end with it, so
    the extractor emits a reference for the URL, the run has a check
    result and an object of the all-results document for it, and a
    request is sent to it, whatever the network answers. *)
Theorem self_link_with_port_is_checked
        (network : list Request -> Request -> Result Response) :
  let u := "https://stackoverflow.com:443/q/9" in
  Urllib.urlparse u = Ok (mkParseResult "https" "stackoverflow.com:443")
  /\ UrllibHost.hostname "stackoverflow.com:443" = Some "stackoverflow.com"
  /\ Str.endswith "stackoverflow.com" "stackoverflow.com" = true
  /\ Str.endswith "stackoverflow.com:443" "stackoverflow.com" = false
  /\ Re.finditer (body record_port) = [u]
  /\ @ExtractURLsFromAnswer.process (python network) record_port
     = [(u, ExtractURLsFromAnswer.answer_with_url record_port)]
  /\ map url (@results_of (python network) [record_port]) = [u]
  /\ In u (map d_url (@all_results_view (python network) [record_port]))
  /\ map req_url (@probes_of (python network) [record_port]) = [u].
Proof.
  cbv zeta.
  assert (map url (@results_of (python network) [record_port])
          = ["https://stackoverflow.com:443/q/9"]) as Hr
      by (rewrite PipelineFacts.results_urls; reflexivity).
  assert (In "https://stackoverflow.com:443/q/9"
             (map d_url (@all_results_view (python network) [record_port])))
    as Hd.
  { destruct (@CheckFacts.views (python network) [record_port]) as [_ ->].
    rewrite CheckFacts.json_encode_urls, Hr. now left. }
  repeat split; trivial.
Qed.

(** C9: the test is a test of characters on the netloc that [urlparse]
    returns: a URL is skipped exactly when the parse returns and the
    netloc is some text followed by the site's name, whatever that text
    is; so a link to [notstackoverflow.com] is skipped too, and yields
    neither a reference nor a check result. *)
Theorem exclusion_is_a_suffix_test_on_netloc :
  (forall (L : Libraries) u,
      ExtractURLsFromAnswer.skipped u = true <->
      exists parsed pre,
        urlparse u = Ok parsed
        /\ netloc parsed = pre +++ "stackoverflow.com")
  /\ (forall (L : Libraries) u element a,
         ExtractURLsFromAnswer.skipped u = true ->
         ~ In (u, a) (ExtractURLsFromAnswer.process element))
  /\ Urllib.urlparse "http://notstackoverflow.com/page"
     = Ok (mkParseResult "http" ("not" +++ "stackoverflow.com"))
  /\ (forall network,
         Re.finditer (body record_unrelated)
         = ["http://notstackoverflow.com/page"]
         /\ @ExtractURLsFromAnswer.process (python network) record_unrelated
            = []
         /\ @results_of (python network) [record_unrelated] = []
         /\ @probes_of (python network) [record_unrelated] = []).
Proof.
  split; [|split; [|split]].
  - intros L u. apply ExtractFacts.skipped_iff.
  - intros L u element a Hs Hin. apply ExtractFacts.process_In in Hin.
    destruct Hin as [_ [_ Hf]]. congruence.
  - reflexivity.
  - intros network. repeat split.
Qed.

(** ** C2: one result and one request per URL *)

(** C2, as stated, fails: the URL appears in exactly one of the two
    records of the example, and the run has no check result and no
    request for it, because the extractor skips links to the site. *)
Lemma self_link_in_one_record_has_no_result :
  let u := "https://stackoverflow.com/q/9" in
  let L := python (answering 200 "OK") in
  let rows := [record_A; record_B] in
  rows_linking u rows = [record_A]
  /\ Str.contains (body record_A) u = true
  /\ ~ (exists r, results_for u (@results_of L rows) = [r])
  /\ probes_for u (@probes_of L rows) = [].
Proof.
  repeat split. intros [r E]. discriminate.
Qed.

(** C2, amended: for every URL that the extractor does not skip and that
    the pattern finds in K records, K at least one, the run has exactly
    one check result for the URL; its references are those of the K
    records, its serialized [answer_count] is K and [answer_score_sum] the
    sum of the K scores; the all-results document has exactly one object
    for the URL; and exactly one request was sent for it. *)
Theorem one_result_and_one_probe_per_url
        `{Libraries} (rows : list Row) (u : string) :
  ExtractURLsFromAnswer.skipped u = false ->
  rows_linking u rows <> [] ->
  exists r,
    results_for u (results_of rows) = [r]
    /\ answerURLs r
       = map ExtractURLsFromAnswer.answer_with_url (rows_linking u rows)
    /\ List.length (answerURLs r) = List.length (rows_linking u rows)
    /\ objects_for u (all_results_view rows)
       = [AnswerURLCheckResult.to_dict r]
    /\ answer_count (AnswerURLCheckResult.to_dict r)
       = Z.of_nat (List.length (rows_linking u rows))
    /\ answer_score_sum (AnswerURLCheckResult.to_dict r)
       = total_score (rows_linking u rows)
    /\ probes_for u (probes_of rows) = [CheckURLReturns200.request_for u].
Proof.
  intros Hs Hk.
  destruct (PipelineFacts.kept_url_result rows u Hs Hk)
    as [r [log [Hone Hr]]].
  assert (answerURLs r
          = map ExtractURLsFromAnswer.answer_with_url (rows_linking u rows))
    as Hrefs by (rewrite Hr; apply PipelineFacts.result_of_url).
  exists r. split; [exact Hone|]. split; [exact Hrefs|].
  split; [now rewrite Hrefs, length_map|].
  split; [|split; [|split]].
  - destruct (CheckFacts.views rows) as [_ ->]. unfold objects_for.
    apply (SortFacts.filter_singleton_perm _
             (map AnswerURLCheckResult.to_dict (results_of rows))).
    + symmetry. apply CheckFacts.json_encode_perm.
    + rewrite CheckFacts.filter_to_dict. simpl.
      fold (results_for u (results_of rows)). now rewrite Hone.
  - simpl. now rewrite Hrefs, length_map.
  - simpl. rewrite Hrefs. apply CheckFacts.sum_scores_total.
  - unfold probes_for, probes_of, responses.
    destruct (PipelineFacts.for_each_process (url_groups rows) [])
      as [-> _].
    simpl app.
    rewrite <- (map_map fst CheckURLReturns200.request_for).
    change u with (req_url (CheckURLReturns200.request_for u)) at 1.
    apply (KeyFacts.filter_key_NoDup req_url).
    + rewrite map_map. simpl. rewrite map_id.
      apply PipelineFacts.url_groups_NoDup.
    + apply in_map. apply PipelineFacts.group_keys_iff.
      destruct (rows_linking u rows) as [|el l] eqn:E; [congruence|].
      assert (In el (rows_linking u rows)) as Hel by (rewrite E; now left).
      apply filter_In in Hel as [Hel Hl]. now exists el.
Qed.

(** The end-to-end example: two records link to one URL. *)
Lemma one_result_and_one_probe_per_url_witness :
  let u := "https://example.com/x" in
  let L := python (answering 200 "OK") in
  let rows := [record_A; record_B] in
  rows_linking u rows = [record_A; record_B]
  /\ exists r,
      results_for u (@results_of L rows) = [r]
      /\ List.length (answerURLs r) = 2%nat
      /\ answer_count (AnswerURLCheckResult.to_dict r) = 2%Z
      /\ answer_score_sum (AnswerURLCheckResult.to_dict r) = 15%Z
      /\ probes_for u (@probes_of L rows)
         = [@CheckURLReturns200.request_for u].
Proof.
  split; [reflexivity|].
  destruct (@one_result_and_one_probe_per_url (python (answering 200 "OK"))
              [record_A; record_B] "https://example.com/x" eq_refl)
    as [r [H1 [_ [H3 [_ [H5 [H6 H7]]]]]]].
  - discriminate.
  - exists r. auto.
Defined.

(** ** C8: malformed links *)




(** ** C10: what the pattern recognises *)

(** C10, as stated, fails: the href value [http] is double-quoted and
    its first four characters are [http], and it is not extracted: the
    pattern asks for one more character before the closing quote. *)
Lemma bare_http_value_is_not_extracted :
  let v := "http" in
  body record_bare = Re.anchor +++ v +++ Str.q +++ ">"
  /\ Str.take 4 v = "http"
  /\ ~ In v (Re.finditer (body record_bare))
  /\ @ExtractURLsFromAnswer.process (python (answering 200 "OK")) record_bare
     = [].
Proof.
  split; [reflexivity|]. split; [reflexivity|]. split; [|reflexivity].
  intros Hin. exact Hin.
Qed.

(** C10, amended: the extractor finds a URL only right after the literal
    text of the pattern, and the URL begins with [http], has at least
    five characters, holds no double quote and ends at a double quote or
    at the end of the body; so a single-quoted href, or one that follows
    other attributes, yields no reference.  A double-quoted href value
    that begins with [http] and has at least one more character is found,
    up to its closing quote and whatever its scheme, when every earlier
    occurrence of the literal text is closed by a double quote before
    it. *)
Theorem pattern_finds_double_quoted_http_values :
  (forall text u,
      In u (Re.finditer text) ->
      exists pre post,
        text = pre +++ Re.anchor +++ u +++ post
        /\ Str.startswith u "http" = true
        /\ (5 <= String.length u)%nat
        /\ Str.mem Str.dquote u = false
        /\ (post = EmptyString \/ Str.startswith post Str.q = true))
  /\ (forall pre v post,
         anchors_closed pre = true ->
         Str.startswith v "http" = true ->
         (5 <= String.length v)%nat ->
         Str.mem Str.dquote v = false ->
         Re.finditer (pre +++ Re.anchor +++ v +++ Str.q +++ post)
         = Re.finditer pre ++ v :: Re.finditer post)
  /\ (forall (L : Libraries) element,
         Re.finditer (body element) = [] ->
         ExtractURLsFromAnswer.process element = [])
  /\ Re.finditer "<a href='http://example.com/'>x</a>" = []
  /\ Re.finditer ("<a class=" +++ Str.q +++ "c" +++ Str.q +++ " href="
                  +++ Str.q +++ "http://example.com/" +++ Str.q +++ ">x</a>")
     = []
  /\ Re.finditer ("<p>" +++ a_href "http://a.org/" +++ "a</a> "
                  +++ a_href "httpx://example.com/" +++ "x</a></p>")
     = ["http://a.org/"; "httpx://example.com/"].
Proof.
  split; [|split; [|split; [|split; [|split]]]].
  - intros text u. apply ReFacts.finditer_sound.
  - intros pre v post. apply ReFacts.finditer_link.
  - intros L element E. unfold ExtractURLsFromAnswer.process. now rewrite E.
  - reflexivity.
  - reflexivity.
  - reflexivity.
Qed.

(** * Further properties of the code *)

(** ** Facts about groups and results *)

Module GroupFacts.

Lemma concat_nils {V : Type} (ks : list string) :
  List.concat (map (fun _ : string => @nil V) ks) = [].
Proof. induction ks; simpl; trivial. Qed.

Lemma values_of_cons {V : Type} (k k0 : string) (v : V) (pc : list (string * V)) :
  Beam.values_of k ((k0, v) :: pc)
  = if String.eqb k0 k then v :: Beam.values_of k pc else Beam.values_of k pc.
Proof. unfold Beam.values_of. simpl. now destruct (String.eqb k0 k). Qed.

(** Adding a value under one of several distinct keys adds it once. *)
Lemma concat_one_more {V : Type} (f : string -> list V) (k0 : string) (v : V)
      (ks : list string) :
  NoDup ks -> In k0 ks ->
  Permutation
    (List.concat
       (map (fun k => if String.eqb k0 k then v :: f k else f k) ks))
    (v :: List.concat (map f ks)).
Proof.
  induction ks as [|k ks IH]; [contradiction|].
  intros Hnd Hin. inversion Hnd as [|? ? Hk Hnd']; subst. simpl.
  destruct (String.eqb_spec k0 k) as [->|Hne].
  - simpl. constructor.
    rewrite (map_ext_in _ f); trivial.
    intros k' Hk'. destruct (String.eqb_spec k k') as [->|]; tauto.
  - destruct Hin as [E|Hin]; [congruence|].
    rewrite (IH Hnd' Hin). apply Permutation_sym, Permutation_middle.
Qed.

(** Grouping by distinct keys that cover the pairs keeps every value,
    once. *)
Lemma grouped_values_perm {V : Type} (pc : list (string * V)) (ks : list string) :
  NoDup ks -> (forall kv, In kv pc -> In (fst kv) ks) ->
  Permutation (List.concat (map (fun k => Beam.values_of k pc) ks))
              (map snd pc).
Proof.
  intros Hnd. induction pc as [|[k0 v] pc IH]; intros Hcov.
  - simpl. change (fun k : string => Beam.values_of k (@nil (string * V)))
      with (fun _ : string => @nil V).
    now rewrite concat_nils.
  - rewrite (map_ext _ _ (fun k => values_of_cons k k0 v pc)).
    rewrite concat_one_more; trivial.
    + simpl. constructor. apply IH. intros kv Hkv. apply Hcov. now right.
    + apply (Hcov (k0, v)). now left.
Qed.

Lemma CombinePerKey_values {V : Type} (pc : list (string * V)) :
  map snd (Beam.CombinePerKey combine_pcollection_to_list pc)
  = map (fun k => Beam.values_of k pc) (Beam.keys pc).
Proof.
  unfold Beam.CombinePerKey. rewrite map_map. simpl.
  apply map_ext. intros k. apply BeamFacts.combine_values.
Qed.

Lemma CombinePerKey_perm {V : Type} (pc : list (string * V)) :
  Permutation
    (List.concat (map snd (Beam.CombinePerKey combine_pcollection_to_list pc)))
    (map snd pc).
Proof.
  rewrite CombinePerKey_values. apply grouped_values_perm.
  - apply BeamFacts.keys_NoDup.
  - intros kv Hkv. apply BeamFacts.keys_In. now apply in_map.
Qed.

Lemma values_of_present {V : Type} (k : string) (pc : list (string * V)) :
  In k (map fst pc) -> Beam.values_of k pc <> [].
Proof.
  intros Hin E. apply in_map_iff in Hin as [[k' v] [Ek Hin]]. simpl in Ek.
  subst k'. assert (In v (Beam.values_of k pc)) as Hv.
  { unfold Beam.values_of. apply in_map_iff. exists (k, v). split; trivial.
    apply filter_In. split; trivial. apply String.eqb_refl. }
  now rewrite E in Hv.
Qed.

(** Filtering keeps the keys of a list distinct. *)
Lemma filter_keeps_distinct {A : Type} (key : A -> string)
      (keep : A -> bool) (xs : list A) (Hnd : NoDup (map key xs)) :
  NoDup (map key (filter keep xs)).
Proof.
  revert Hnd. induction xs as [|x xs IH]; simpl; trivial.
  intros Hnd. inversion Hnd as [|? ? Hx Hnd']; subst.
  destruct (keep x); simpl; auto. constructor; auto.
  intros Hin. apply Hx. apply in_map_iff in Hin as [y [E Hy]].
  apply filter_In in Hy as [Hy _]. rewrite <- E. now apply in_map.
Qed.

Section WithLibraries.
Context `{Libraries}.

Lemma results_refs (rows : list Row) :
  map answerURLs (results_of rows) = map snd (url_groups rows).
Proof.
  unfold results_of, responses.
  destruct (PipelineFacts.for_each_process (url_groups rows) []) as [_ Hf].
  induction Hf as [|g r groups rs Hc _ IH]; trivial.
  simpl. f_equal; trivial. now apply PipelineFacts.checked_url.
Qed.

Lemma results_length (rows : list Row) :
  List.length (results_of rows) = List.length (url_groups rows).
Proof.
  rewrite <- (length_map url), PipelineFacts.results_urls. apply length_map.
Qed.

Lemma results_urls_NoDup (rows : list Row) : NoDup (map url (results_of rows)).
Proof.
  rewrite PipelineFacts.results_urls. apply PipelineFacts.url_groups_NoDup.
Qed.

(** Every request of a run is the request for its URL. *)
Lemma probes_requests (rows : list Row) :
  probes_of rows
  = map CheckURLReturns200.request_for (map fst (url_groups rows)).
Proof.
  unfold probes_of, responses.
  destruct (PipelineFacts.for_each_process (url_groups rows) []) as [-> _].
  simpl. now rewrite map_map.
Qed.

(** The result of a run for a URL is the check of the references of the
    rows that link to it. *)
Lemma result_sound (rows : list Row) (r : AnswerURLCheckResult) :
  In r (results_of rows) ->
  ExtractURLsFromAnswer.skipped (url r) = false
  /\ rows_linking (url r) rows <> []
  /\ exists log,
      r = CheckURLReturns200.result_of (url r)
            (map ExtractURLsFromAnswer.answer_with_url
                 (rows_linking (url r) rows))
            (requests_head log (CheckURLReturns200.request_for (url r))).
Proof.
  intros Hr.
  assert (In (url r) (map fst (url_groups rows))) as Hg
      by (rewrite <- PipelineFacts.results_urls; now apply in_map).
  apply PipelineFacts.group_keys_iff in Hg as [el [Hel [Hl Hs]]].
  assert (rows_linking (url r) rows <> []) as Hk.
  { apply (PipelineFacts.linking_rows_nonempty rows el); trivial.
    now apply ExtractFacts.linked_iff. }
  split; trivial. split; trivial.
  destruct (PipelineFacts.kept_url_result rows (url r) Hs Hk)
    as [r' [log [Hone Hr']]].
  assert (results_for (url r) (results_of rows) = [r]) as Hone'.
  { apply (KeyFacts.filter_key_NoDup url); trivial.
    apply results_urls_NoDup. }
  rewrite Hone' in Hone. injection Hone as <-. now exists log.
Qed.

End WithLibraries.
End GroupFacts.

(** ** Grouping *)

(** X1: [combine_pcollection_to_list] may be applied to its own results:
    combining the lists it returned for the parts of a collection gives
    what it returns for the whole collection; and on plain values it
    returns the values, in order. *)
Theorem combine_of_partial_results {V : Type} (chunks : list (list (El V))) :
  combine_pcollection_to_list
    (map (fun chunk => Many (combine_pcollection_to_list chunk)) chunks)
  = combine_pcollection_to_list (List.concat chunks)
  /\ forall l : list V, combine_pcollection_to_list (map One l) = l.
Proof.
  split; [|apply BeamFacts.combine_values].
  induction chunks as [|chunk chunks IH]; trivial.
  simpl map. simpl List.concat.
  now rewrite BeamFacts.combine_cons, BeamFacts.combine_app, IH.
Qed.

(** X2: the references of all check results of a run are the references
    the extractor emitted, each exactly once: grouping and checking lose
    and duplicate nothing. *)
Theorem no_reference_lost_or_duplicated `{Libraries} (rows : list Row) :
  Permutation
    (List.concat (map answerURLs (results_of rows)))
    (map snd (Beam.ParDo ExtractURLsFromAnswer.process rows)).
Proof.
  rewrite GroupFacts.results_refs. unfold url_groups.
  apply GroupFacts.CombinePerKey_perm.
Qed.

(** X3: every check result of a run is about a URL that the extractor
    does not skip and that at least one row links to, and its references
    are those of the rows that link to it, one per row. *)
Theorem result_references_are_the_linking_rows
        `{Libraries} (rows : list Row) (r : AnswerURLCheckResult) :
  In r (results_of rows) ->
  ExtractURLsFromAnswer.skipped (url r) = false
  /\ rows_linking (url r) rows <> []
  /\ answerURLs r
     = map ExtractURLsFromAnswer.answer_with_url (rows_linking (url r) rows)
  /\ (1 <= List.length (answerURLs r))%nat.
Proof.
  intros Hr. destruct (GroupFacts.result_sound rows r Hr) as [Hs [Hk [log E]]].
  assert (answerURLs r
          = map ExtractURLsFromAnswer.answer_with_url
                (rows_linking (url r) rows)) as Hrefs
      by (rewrite E at 1; apply PipelineFacts.result_of_url).
  repeat split; trivial.
  rewrite Hrefs, length_map.
  destruct (rows_linking (url r) rows); [congruence | simpl; lia].
Qed.

Lemma result_references_are_the_linking_rows_witness :
  let L := python (answering 200 "OK") in
  let r :=
    mkAnswerURLCheckResult "https://example.com/x"
      [mkAnswerWithURL 10 1 "Question A" "https://stackoverflow.com/a/1";
       mkAnswerWithURL 5 2 "Question B" "https://stackoverflow.com/a/2"]
      (Some 200%Z) None None (Some (1 # 10)) in
  In r (@results_of L [record_A; record_B])
  /\ rows_linking (url r) [record_A; record_B] <> []
  /\ answerURLs r
     = map (@ExtractURLsFromAnswer.answer_with_url)
           (rows_linking (url r) [record_A; record_B]).
Proof.
  split; [left; reflexivity|].
  destruct (@result_references_are_the_linking_rows
              (python (answering 200 "OK")) [record_A; record_B]
              (mkAnswerURLCheckResult "https://example.com/x"
                 [mkAnswerWithURL 10 1 "Question A"
                    "https://stackoverflow.com/a/1";
                  mkAnswerWithURL 5 2 "Question B"
                    "https://stackoverflow.com/a/2"]
                 (Some 200%Z) None None (Some (1 # 10))))
    as [_ [H2 [H3 _]]].
  - left. reflexivity.
  - split; assumption.
Defined.

(** X4: no two check results of a run are about the same URL, and no two
    objects of either document have the same [url]. *)
Theorem urls_are_distinct `{Libraries} (rows : list Row) :
  NoDup (map url (results_of rows))
  /\ NoDup (map d_url (all_results_view rows))
  /\ NoDup (map d_url (failures_view rows)).
Proof.
  destruct (CheckFacts.views rows) as [-> ->].
  pose proof (GroupFacts.results_urls_NoDup rows) as Hnd.
  assert (forall l, NoDup (map url l) -> NoDup (map d_url (json_encode l)))
    as Hdoc.
  { intros l Hl.
    apply (Permutation_NoDup (l := map d_url (map AnswerURLCheckResult.to_dict l))).
    - apply Permutation_map. symmetry. apply CheckFacts.json_encode_perm.
    - now rewrite map_map. }
  split; trivial. split; apply Hdoc; trivial.
  now apply GroupFacts.filter_keeps_distinct.
Qed.

(** X5: a run sends one request per check result, for the URL of the
    result and in the order of the results, and each document of all
    results has one object per result. *)
Theorem one_request_per_result `{Libraries} (rows : list Row) :
  map req_url (probes_of rows) = map url (results_of rows)
  /\ List.length (probes_of rows) = List.length (results_of rows)
  /\ List.length (all_results_view rows) = List.length (results_of rows)
  /\ (List.length (failures_view rows) <= List.length (results_of rows))%nat.
Proof.
  destruct (CheckFacts.views rows) as [-> ->].
  assert (map req_url (probes_of rows) = map url (results_of rows)) as E
      by now rewrite PipelineFacts.probes_urls, PipelineFacts.results_urls.
  split; trivial. split; [|split].
  - now rewrite <- (length_map req_url), E, length_map.
  - rewrite (Permutation_length (CheckFacts.json_encode_perm _)).
    apply length_map.
  - rewrite (Permutation_length (CheckFacts.json_encode_perm _)).
    rewrite length_map. apply filter_length_le.
Qed.

(** X6: every request of a run is a request with a connect timeout of 5
    seconds, a read timeout of 10 seconds and the one header
    [User-Agent: broken-link-checker]. *)
Theorem every_request_has_timeouts_and_agent `{Libraries} (rows : list Row) :
  Forall
    (fun rq =>
       req_connect_timeout rq = 5
       /\ req_read_timeout rq = 10
       /\ req_headers rq = [("User-Agent", "broken-link-checker")])
    (probes_of rows).
Proof.
  rewrite GroupFacts.probes_requests. apply Forall_forall.
  intros rq Hin. apply in_map_iff in Hin as [u [<- _]]. repeat split.
Qed.

(** ** The check *)

Module OutcomeFacts.

Lemma filter_none {A : Type} (p : A -> bool) (l : list A) :
  (forall x, In x l -> p x = false) -> filter p l = [].
Proof.
  induction l as [|x l IH]; trivial. intros Hall. simpl.
  rewrite (Hall x) by now left. apply IH. intros y Hy. apply Hall. now right.
Qed.

Lemma filter_all {A : Type} (p : A -> bool) (l : list A) :
  (forall x, In x l -> p x = true) -> filter p l = l.
Proof.
  induction l as [|x l IH]; trivial. intros Hall. simpl.
  rewrite (Hall x) by now left. f_equal. apply IH. intros y Hy.
  apply Hall. now right.
Qed.

Lemma map_fst_nil {A B : Type} (l : list (A * B)) :
  (forall a, ~ In a (map fst l)) -> l = [].
Proof.
  destruct l as [|[a b] l]; trivial. intros Hall. exfalso.
  apply (Hall a). now left.
Qed.

(** The fields of the result of a check, by the outcome of the request. *)
Lemma result_of_fields `{Libraries} (u : string) (refs : list AnswerWithURL)
      (o : Result Response) :
  let r := CheckURLReturns200.result_of u refs o in
  (err_type r = None <-> err_details r = None)
  /\ (status r = None <-> req_time_secs r = None)
  /\ (status r = None -> err_type r <> None)
  /\ (status r = None <-> exists e, o = Raise e).
Proof.
  destruct o as [resp|e].
  - destruct (CheckFacts.result_of_response u refs resp)
      as [Hst [Ht [_ Hd]]].
    cbv zeta. rewrite Hst, Ht. repeat split; try discriminate; try apply Hd.
    intros [e E]. discriminate.
  - rewrite CheckFacts.result_of_raise. simpl.
    repeat split; try discriminate; eauto.
Qed.

End OutcomeFacts.

(** X7: when the request is answered with a status from 400 to 599, the
    result keeps the status and the request time, and has [HTTPError] as
    [err_type] and the message of [raise_for_status] as [err_details]. *)
Theorem http_error_keeps_status
        `{Libraries} (u : string) (refs : list AnswerWithURL)
        (log : list Request) (resp : Response) :
  requests_head log (CheckURLReturns200.request_for u) = Ok resp ->
  is_4xx_5xx (status_code resp) = true ->
  exists r,
    fst (CheckURLReturns200.process (u, refs) log) = [r]
    /\ url r = u
    /\ answerURLs r = refs
    /\ status r = Some (status_code resp)
    /\ req_time_secs r = Some (elapsed resp)
    /\ err_type r = Some "HTTPError"
    /\ err_details r
       = Some (Str.of_Z (status_code resp)
               +++ (if (status_code resp <? 500)%Z
                    then " Client Error: " else " Server Error: ")
               +++ reason resp +++ " for url: " +++ resp_url resp).
Proof.
  intros E Hcode. rewrite PipelineFacts.process_run, E.
  eexists. split; [reflexivity|].
  unfold CheckURLReturns200.result_of, CheckURLReturns200.record_response,
    Requests.raise_for_status.
  unfold is_4xx_5xx in Hcode.
  destruct (Z.leb_spec 400 (status_code resp)); [|discriminate].
  destruct (Z.ltb_spec (status_code resp) 600); [|discriminate].
  destruct (Z.ltb_spec (status_code resp) 500); simpl.
  - repeat split.
  - destruct (Z.leb_spec 500 (status_code resp)); [|lia].
    simpl. repeat split.
Qed.

Lemma http_error_keeps_status_witness :
  exists r,
    fst (@CheckURLReturns200.process (python (answering 503 "Service Unavailable"))
           ("https://example.com/x", []) []) = [r]
    /\ status r = Some 503%Z
    /\ err_type r = Some "HTTPError"
    /\ err_details r
       = Some "503 Server Error: Service Unavailable for url: https://example.com/x".
Proof.
  destruct (@http_error_keeps_status
              (python (answering 503 "Service Unavailable"))
              "https://example.com/x" [] []
              (mkResponse 503 "Service Unavailable" "https://example.com/x"
                          (1 # 10))
              eq_refl eq_refl)
    as [r [H1 [_ [_ [H4 [_ [H6 H7]]]]]]].
  exists r. repeat split; assumption.
Defined.

(** X8: in every check result of a run [err_type] and [err_details] are
    set together, [status] and [req_time_secs] are set together, and a
    result without a status has an [err_type]. *)
Theorem result_fields_are_consistent
        `{Libraries} (rows : list Row) (r : AnswerURLCheckResult) :
  In r (results_of rows) ->
  (err_type r = None <-> err_details r = None)
  /\ (status r = None <-> req_time_secs r = None)
  /\ (status r = None -> err_type r <> None).
Proof.
  intros Hr. apply PipelineFacts.results_In in Hr as [[u refs] [_ [log ->]]].
  destruct (OutcomeFacts.result_of_fields u refs
              (requests_head log (CheckURLReturns200.request_for u)))
    as [H1 [H2 [H3 _]]].
  auto.
Qed.

Lemma result_fields_are_consistent_witness :
  let L := python (failing connection_error) in
  let r :=
    mkAnswerURLCheckResult "https://example.com/x"
      [mkAnswerWithURL 5 2 "Question B" "https://stackoverflow.com/a/2"]
      None (Some "ConnectionError") (Some "Max retries exceeded") None in
  In r (@results_of L [record_B])
  /\ (status r = None -> err_type r <> None).
Proof.
  split; [left; reflexivity|].
  apply (@result_fields_are_consistent (python (failing connection_error))
           [record_B]).
  left. reflexivity.
Defined.

(** ** Edge cases of a run *)

(** X9: when every link that the pattern finds in the rows is skipped
    (so also when there is no row, or no link), no request is sent and
    each of the two files still gets one document, the empty list. *)
Theorem nothing_to_check_gives_empty_documents
        `{Libraries} (rows : list Row) :
  (forall element u,
      In element rows -> In u (Re.finditer (body element)) ->
      ExtractURLsFromAnswer.skipped u = true) ->
  results_of rows = []
  /\ probes_of rows = []
  /\ outputs_of rows = mkOutputs [[]] [[]].
Proof.
  intros Hall.
  assert (url_groups rows = []) as E.
  { apply OutcomeFacts.map_fst_nil. intros u Hin.
    apply PipelineFacts.group_keys_iff in Hin as [el [Hel [Hl Hs]]].
    apply ExtractFacts.linked_iff in Hl. rewrite (Hall el u) in Hs; trivial.
    discriminate. }
  unfold results_of, probes_of, outputs_of, run, bind, responses.
  rewrite E. repeat split.
Qed.

Lemma nothing_to_check_gives_empty_documents_witness :
  @outputs_of (python (answering 200 "OK")) [record_so; record_unrelated]
  = mkOutputs [[]] [[]].
Proof.
  apply (@nothing_to_check_gives_empty_documents
           (python (answering 200 "OK")) [record_so; record_unrelated]).
  intros element u [<- | [<- | []]] [<- | []]; reflexivity.
Defined.

(** X10: on a network that answers every request with a status outside
    400 to 599, the failures document is empty. *)
Theorem no_failures_when_every_status_is_good
        `{Libraries} (rows : list Row) :
  (forall log rq, exists resp,
      requests_head log rq = Ok resp
      /\ is_4xx_5xx (status_code resp) = false) ->
  failures_view rows = []
  /\ Forall (fun d => d_err_type d = None /\ d_status d <> None)
            (all_results_view rows).
Proof.
  intros Hnet.
  assert (forall r, In r (results_of rows) ->
                    err_type r = None /\ status r <> None) as Hr.
  { intros r Hin.
    apply PipelineFacts.results_In in Hin as [[u refs] [_ [log ->]]].
    simpl fst; simpl snd.
    destruct (Hnet log (CheckURLReturns200.request_for u)) as [resp [-> Hc]].
    destruct (CheckFacts.result_of_response u refs resp)
      as [Hst [_ [Herr _]]].
    split; [|congruence].
    destruct (err_type (CheckURLReturns200.result_of u refs (Ok resp)));
      trivial.
    assert (is_4xx_5xx (status_code resp) = true)
      by (apply Herr; discriminate).
    congruence. }
  destruct (CheckFacts.views rows) as [-> ->]. split.
  - rewrite OutcomeFacts.filter_none; trivial.
    intros r Hin. unfold is_failure. now rewrite (proj1 (Hr r Hin)).
  - apply Forall_forall. intros d Hd.
    apply (Permutation_in _ (CheckFacts.json_encode_perm _)) in Hd.
    apply in_map_iff in Hd as [r [<- Hin]]. simpl. now apply Hr.
Qed.

Lemma no_failures_when_every_status_is_good_witness :
  @failures_view (python (answering 301 "Moved Permanently"))
    [record_A; record_B] = [].
Proof.
  apply (@no_failures_when_every_status_is_good
           (python (answering 301 "Moved Permanently")) [record_A; record_B]).
  intros log rq. eexists. split; reflexivity.
Defined.

(** X11: on a network on which every request raises, every result is a
    failure without a status, and the two documents are the same. *)
Theorem everything_fails_when_every_request_raises
        `{Libraries} (rows : list Row) :
  (forall log rq, exists e, requests_head log rq = Raise e) ->
  failures_view rows = all_results_view rows
  /\ Forall (fun d => d_err_type d <> None /\ d_status d = None
                      /\ d_req_time_secs d = None)
            (all_results_view rows).
Proof.
  intros Hnet.
  assert (forall r, In r (results_of rows) ->
                    err_type r <> None /\ status r = None
                    /\ req_time_secs r = None) as Hr.
  { intros r Hin.
    apply PipelineFacts.results_In in Hin as [[u refs] [_ [log ->]]].
    simpl fst; simpl snd.
    destruct (Hnet log (CheckURLReturns200.request_for u)) as [e ->].
    rewrite CheckFacts.result_of_raise. simpl. repeat split. discriminate. }
  destruct (CheckFacts.views rows) as [-> ->]. split.
  - rewrite OutcomeFacts.filter_all; trivial.
    intros r Hin. unfold is_failure.
    destruct (err_type r) eqn:E; trivial.
    now destruct (proj1 (Hr r Hin)).
  - apply Forall_forall. intros d Hd.
    apply (Permutation_in _ (CheckFacts.json_encode_perm _)) in Hd.
    apply in_map_iff in Hd as [r [<- Hin]]. simpl. now apply Hr.
Qed.

Lemma everything_fails_when_every_request_raises_witness :
  @failures_view (python (failing connection_error)) [record_A; record_B]
  = @all_results_view (python (failing connection_error)) [record_A; record_B].
Proof.
  apply (@everything_fails_when_every_request_raises
           (python (failing connection_error)) [record_A; record_B]).
  intros log rq. eexists. reflexivity.
Defined.

(** ** Ranking and serialization *)

Module RankFacts.

(** [b] is at most [a]. *)
Local Notation "a >=> b" := (b <= a)%Z (at level 70, only parsing).

Lemma sorted_keys {A : Type} (key : A -> Z) (l : list A) :
  StronglySorted (ge_key key) l ->
  StronglySorted (fun a b => a >=> b) (map key l).
Proof.
  induction 1 as [|x l Hs IH Hall]; simpl; constructor; trivial.
  apply Forall_map. exact Hall.
Qed.

(** Two descending lists of integers with the same elements are equal. *)
Lemma descending_perm_eq (l l' : list Z) :
  StronglySorted (fun a b => a >=> b) l ->
  StronglySorted (fun a b => a >=> b) l' ->
  Permutation l l' -> l = l'.
Proof.
  intros Hs. revert l'. induction Hs as [|a l Hs IH Ha]; intros l' Hs' Hp.
  - apply Permutation_nil in Hp. now subst.
  - destruct l' as [|a' l'];
      [apply Permutation_sym, Permutation_nil in Hp; discriminate|].
    inversion Hs' as [|? ? Hs'' Ha']; subst.
    rewrite Forall_forall in Ha, Ha'.
    assert (a' <= a)%Z as H1.
    { assert (In a' (a :: l)) as [->|Hin]
          by (apply (Permutation_in _ (Permutation_sym Hp)); now left);
        [lia | now apply Ha]. }
    assert (a <= a')%Z as H2.
    { assert (In a (a' :: l')) as [->|Hin]
          by (apply (Permutation_in _ Hp); now left);
        [lia | now apply Ha']. }
    assert (a = a') as -> by lia.
    f_equal. apply IH; trivial. now apply Permutation_cons_inv in Hp.
Qed.

(** Sorting a list that descends already changes nothing. *)
Lemma sort_reverse_sorted_id {A : Type} (key : A -> Z) (l : list A) :
  StronglySorted (ge_key key) l -> sort_reverse key l = l.
Proof.
  induction 1 as [|x l Hs IH Hall]; trivial.
  simpl. rewrite IH. destruct l as [|y l']; trivial. simpl.
  inversion Hall as [|? ? Hy _]; subst. unfold ge_key in Hy.
  destruct (Z.leb_spec (key y) (key x)); trivial. lia.
Qed.

Lemma view_objects `{Libraries} (rows : list Row) (d : ResultDict) :
  In d (all_results_view rows) \/ In d (failures_view rows) ->
  exists r, In r (results_of rows) /\ d = AnswerURLCheckResult.to_dict r.
Proof.
  destruct (CheckFacts.views rows) as [-> ->].
  intros [Hd | Hd];
    apply (Permutation_in _ (CheckFacts.json_encode_perm _)) in Hd;
    apply in_map_iff in Hd as [r [<- Hin]].
  - now exists r.
  - apply filter_In in Hin as [Hin _]. now exists r.
Qed.

Lemma to_dict_answer_inj (a b : AnswerWithURL) :
  AnswerWithURL.to_dict a = AnswerWithURL.to_dict b -> a = b.
Proof.
  destruct a, b. unfold AnswerWithURL.to_dict. simpl. congruence.
Qed.

Lemma map_to_dict_inj (l l' : list AnswerWithURL) :
  map AnswerWithURL.to_dict l = map AnswerWithURL.to_dict l' -> l = l'.
Proof.
  revert l'. induction l as [|a l IH]; intros [|b l'] E; try discriminate;
    trivial.
  cbn [map] in E.
  assert (AnswerWithURL.to_dict a = AnswerWithURL.to_dict b
          /\ map AnswerWithURL.to_dict l = map AnswerWithURL.to_dict l')
    as [Ea El] by (split; congruence).
  f_equal; [now apply to_dict_answer_inj | now apply IH].
Qed.

End RankFacts.

(** X12: the scores of a document, from its first object to its last, do
    not depend on the order in which the results reach [json_encode]. *)
Theorem ranking_ignores_arrival_order (l l' : list AnswerURLCheckResult) :
  Permutation l l' ->
  map answer_score_sum (json_encode l) = map answer_score_sum (json_encode l')
  /\ Permutation (json_encode l) (json_encode l').
Proof.
  intros Hp.
  assert (Permutation (json_encode l) (json_encode l')) as Hj.
  { rewrite !CheckFacts.json_encode_perm. now apply Permutation_map. }
  split; trivial.
  apply RankFacts.descending_perm_eq.
  - apply RankFacts.sorted_keys, SortFacts.sort_reverse_sorted.
  - apply RankFacts.sorted_keys, SortFacts.sort_reverse_sorted.
  - now apply Permutation_map.
Qed.

Lemma ranking_ignores_arrival_order_witness :
  let a := mkAnswerURLCheckResult "http://a.org/"
             [mkAnswerWithURL 3 1 "T" "https://stackoverflow.com/a/1"]
             (Some 200%Z) None None (Some (1 # 10)) in
  let b := mkAnswerURLCheckResult "http://b.org/"
             [mkAnswerWithURL 7 2 "U" "https://stackoverflow.com/a/2"]
             None (Some "Timeout") (Some "timed out") None in
  map answer_score_sum (json_encode [a; b])
  = map answer_score_sum (json_encode [b; a]).
Proof.
  apply ranking_ignores_arrival_order. apply perm_swap.
Defined.

(** X13: [json_encode] keeps the objects of equal score sum in the order
    of their results, and leaves the order of results that descend by
    score sum already as it is. *)
Theorem ranking_is_stable (l : list AnswerURLCheckResult) :
  (forall k,
      filter (fun d => (answer_score_sum d =? k)%Z) (json_encode l)
      = filter (fun d => (answer_score_sum d =? k)%Z)
               (map AnswerURLCheckResult.to_dict l))
  /\ (StronglySorted (ge_key answer_score_sum)
                     (map AnswerURLCheckResult.to_dict l) ->
      json_encode l = map AnswerURLCheckResult.to_dict l)
  /\ sort_reverse answer_score_sum (json_encode l) = json_encode l.
Proof.
  split; [|split].
  - intros k. apply SortFacts.sort_reverse_stable.
  - apply RankFacts.sort_reverse_sorted_id.
  - apply RankFacts.sort_reverse_sorted_id, SortFacts.sort_reverse_sorted.
Qed.

(** X14: in every object of the two documents [answer_count] is the
    number of the object's [answers], at least one, and
    [answer_score_sum] is the sum of their scores. *)
Theorem derived_fields_agree_with_answers
        `{Libraries} (rows : list Row) (d : ResultDict) :
  In d (all_results_view rows) \/ In d (failures_view rows) ->
  answer_count d = Z.of_nat (List.length (answers d))
  /\ (1 <= answer_count d)%Z
  /\ answer_score_sum d = sum_dict_scores (answers d).
Proof.
  intros Hd. apply RankFacts.view_objects in Hd as [r [Hr ->]].
  destruct (GroupFacts.result_sound rows r Hr) as [_ [Hk [log E]]].
  assert (answerURLs r <> []) as Hne.
  { rewrite E. rewrite (proj2 (PipelineFacts.result_of_url _ _ _)).
    destruct (rows_linking (url r) rows); [congruence | discriminate]. }
  simpl. rewrite length_map. split; trivial. split.
  - destruct (answerURLs r); [congruence | simpl List.length; lia].
  - unfold sum_scores, sum_dict_scores. now rewrite map_map.
Qed.

Lemma derived_fields_agree_with_answers_witness :
  let L := python (answering 200 "OK") in
  let d :=
    mkResultDict 15 2 "https://example.com/x"
      [mkAnswerDict 10 1 "Question A" "https://stackoverflow.com/a/1";
       mkAnswerDict 5 2 "Question B" "https://stackoverflow.com/a/2"]
      (Some 200%Z) None None (Some (1 # 10)) in
  In d (@all_results_view L [record_A; record_B])
  /\ answer_score_sum d = sum_dict_scores (answers d).
Proof.
  split; [left; reflexivity|].
  apply (@derived_fields_agree_with_answers (python (answering 200 "OK"))
           [record_A; record_B]).
  left. left. reflexivity.
Defined.

(** X15: [to_dict] loses nothing: two check results with the same dict
    are the same result. *)
Theorem to_dict_is_lossless (r r' : AnswerURLCheckResult) :
  AnswerURLCheckResult.to_dict r = AnswerURLCheckResult.to_dict r' ->
  r = r'.
Proof.
  destruct r, r'. unfold AnswerURLCheckResult.to_dict. simpl.
  intros E. injection E as _ _ -> Ha -> -> -> ->.
  apply RankFacts.map_to_dict_inj in Ha. now subst.
Qed.

Lemma to_dict_is_lossless_witness :
  mkAnswerURLCheckResult "http://a.org/"
    [mkAnswerWithURL 3 1 "T" "https://stackoverflow.com/a/1"]
    (Some 200%Z) None None (Some (1 # 10))
  = mkAnswerURLCheckResult "http://a.org/"
      [mkAnswerWithURL (2 + 1) 1 "T" "https://stackoverflow.com/a/1"]
      (Some 200%Z) None None (Some (1 # 10)).
Proof.
  apply to_dict_is_lossless. reflexivity.
Defined.

(** ** The extractor and its pattern *)

Module EmitFacts.

Lemma loop_urls `{Libraries} (element : Row) (matches seen_urls : list string) :
  map fst (ExtractURLsFromAnswer.loop element seen_urls matches)
  = filter (fun u => negb (ExtractURLsFromAnswer.skipped u))
           (first_occurrences_from seen_urls matches).
Proof.
  revert seen_urls. induction matches as [|u rest IH]; intros seen_urls;
    trivial.
  simpl. unfold ExtractURLsFromAnswer.seen.
  destruct (existsb (String.eqb u) seen_urls); [apply IH|].
  simpl. destruct (ExtractURLsFromAnswer.skipped u); simpl; now rewrite IH.
Qed.

Lemma first_occurrences_length (seen_urls l : list string) :
  (List.length (first_occurrences_from seen_urls l) <= List.length l)%nat.
Proof.
  revert seen_urls. induction l as [|u l IH]; intros seen_urls; simpl; trivial.
  destruct (existsb (String.eqb u) seen_urls); simpl.
  - specialize (IH seen_urls). lia.
  - specialize (IH (u :: seen_urls)). lia.
Qed.

Lemma spanned_cons (u : string) (l : list string) :
  spanned (u :: l)
  = (String.length Re.anchor + String.length u + spanned l)%nat.
Proof. reflexivity. Qed.

Lemma append_inj_r (a b t : string) : a +++ t = b +++ t -> a = b.
Proof.
  intros E.
  apply ReFacts.append_eq_append in E as [[m [E1 E2]] | [m [E1 E2]]];
    apply (f_equal String.length) in E2;
    rewrite StrFacts.length_append in E2;
    (destruct m; [|simpl in E2; lia]);
    rewrite StrFacts.append_empty_r in E1; congruence.
Qed.

(** The matches of a scan lie side by side in the text. *)
Lemma spanned_le (n : nat) (text : string) :
  (String.length text <= n)%nat ->
  (spanned (Re.finditer text) <= String.length text)%nat.
Proof.
  revert text. induction n as [|n IH]; intros text Hle.
  - destruct text; [simpl; lia | simpl in Hle; lia].
  - destruct text as [|c text]; [simpl; lia|].
    rewrite ReFacts.finditer_step.
    destruct (Re.match_at (String c text)) as [u|] eqn:Hm.
    + apply ReFacts.match_at_iff in Hm as [r [E _]].
      rewrite spanned_cons.
      assert (String.length (String c text)
              = String.length Re.anchor + String.length u + String.length r)%nat
        as Hlen by (rewrite E, !StrFacts.length_append; lia).
      specialize (IH (Str.drop (String.length Re.anchor + String.length u)
                               (String c text))).
      rewrite !StrFacts.length_drop in IH.
      assert (String.length Re.anchor = 9%nat) as Ha by reflexivity. lia.
    + specialize (IH text). simpl in *. lia.
Qed.

Lemma of_Z_inj (a b : Z) : Str.of_Z a = Str.of_Z b -> a = b.
Proof.
  assert (forall z, Z.to_int z <> Decimal.Pos Decimal.Nil
                    /\ Z.to_int z <> Decimal.Neg Decimal.Nil) as Hnn.
  { intros z. split; intros E; pose proof (DecimalZ.of_to z) as Hz;
      rewrite E in Hz; simpl in Hz; subst z; discriminate E. }
  unfold Str.of_Z. intros E. apply DecimalZ.to_int_inj.
  assert (NilZero.int_of_string (NilZero.string_of_int (Z.to_int a))
          = NilZero.int_of_string (NilZero.string_of_int (Z.to_int b)))
    as E' by now rewrite E.
  rewrite !NilZero.isi in E' by apply Hnn. congruence.
Qed.

Lemma append_inj_l (p a b : string) : p +++ a = p +++ b -> a = b.
Proof. induction p as [|c p IH]; simpl; trivial. intros E. injection E. auto. Qed.

Lemma uint_digits (d : Decimal.uint) :
  Urllib.all_chars is_digit (NilEmpty.string_of_uint d) = true.
Proof. induction d; simpl; trivial. Qed.

Lemma uint_digits_zero (d : Decimal.uint) :
  Urllib.all_chars is_digit (NilZero.string_of_uint d) = true.
Proof. destruct d; try reflexivity; apply (uint_digits (_ d)). Qed.

End EmitFacts.

(** X16: the URLs that the extractor emits for a row are, in this order,
    the URLs that the pattern finds in the body, each at its first
    occurrence, without those that are skipped; so it emits at most as
    many references as the pattern has matches. *)
Theorem emitted_urls_in_order_of_first_occurrence
        `{Libraries} (element : Row) :
  map fst (ExtractURLsFromAnswer.process element)
  = filter (fun u => negb (ExtractURLsFromAnswer.skipped u))
           (first_occurrences (Re.finditer (body element)))
  /\ (List.length (ExtractURLsFromAnswer.process element)
      <= List.length (Re.finditer (body element)))%nat.
Proof.
  assert (map fst (ExtractURLsFromAnswer.process element)
          = filter (fun u => negb (ExtractURLsFromAnswer.skipped u))
                   (first_occurrences (Re.finditer (body element)))) as E
      by apply EmitFacts.loop_urls.
  split; trivial.
  rewrite <- (length_map fst), E.
  etransitivity; [apply filter_length_le|].
  apply EmitFacts.first_occurrences_length.
Qed.

(** X17: the matches of the pattern do not overlap: the characters they
    span, for each found URL the literal text of the pattern and the URL,
    are together at most the characters of the text. *)
Theorem matches_do_not_overlap (text : string) :
  (spanned (Re.finditer text) <= String.length text)%nat.
Proof. now apply (EmitFacts.spanned_le (String.length text)). Qed.

(** X18: the [answer_url] that the extractor builds tells the answers
    apart: two rows with the same [answer_url] have the same
    [answer_id]. *)
Theorem answer_url_determines_answer_id (element element' : Row) :
  aw_answer_url (ExtractURLsFromAnswer.answer_with_url element)
  = aw_answer_url (ExtractURLsFromAnswer.answer_with_url element') ->
  answer_id element = answer_id element'.
Proof.
  unfold ExtractURLsFromAnswer.answer_with_url. cbn [aw_answer_url].
  intros E. apply EmitFacts.append_inj_l in E.
  now apply EmitFacts.of_Z_inj.
Qed.

Lemma answer_url_determines_answer_id_witness :
  answer_id record_A = answer_id (mkRow "Another title" "text" 0 1).
Proof.
  apply answer_url_determines_answer_id. reflexivity.
Defined.

(** X19: with the [urlparse] of CPython every URL on the site itself,
    whatever its path, is skipped; so are the [answer_url]s that the
    extractor builds, when they occur as links in a body. *)
Theorem site_urls_are_skipped
        (network : list Request -> Request -> Result Response) (t : string) :
  @ExtractURLsFromAnswer.skipped (python network)
     ("https://stackoverflow.com/" +++ t) = true
  /\ @ExtractURLsFromAnswer.skipped (python network)
       ("http://stackoverflow.com/" +++ t) = true
  /\ forall element,
      @ExtractURLsFromAnswer.skipped (python network)
        (aw_answer_url (ExtractURLsFromAnswer.answer_with_url element))
      = true.
Proof.
  split; [reflexivity|]. split; [reflexivity|]. intros element. reflexivity.
Qed.

(** X20: the URLs that a run checks and the references it groups under
    each do not depend on the order of the rows. *)
Theorem checked_urls_ignore_row_order
        `{Libraries} (rows rows' : list Row) (r : AnswerURLCheckResult) :
  Permutation rows rows' ->
  In r (results_of rows) ->
  exists r',
    In r' (results_of rows')
    /\ url r' = url r
    /\ Permutation (answerURLs r) (answerURLs r').
Proof.
  intros Hp Hr.
  destruct (GroupFacts.result_sound rows r Hr) as [Hs [Hk [log E]]].
  assert (Permutation (rows_linking (url r) rows) (rows_linking (url r) rows'))
    as Hl by now apply SortFacts.filter_perm.
  assert (rows_linking (url r) rows' <> []) as Hk'.
  { intros E'. rewrite E' in Hl.
    now apply Permutation_sym, Permutation_nil in Hl. }
  destruct (PipelineFacts.kept_url_result rows' (url r) Hs Hk')
    as [r' [log' [Hone E']]].
  assert (In r' (results_for (url r) (results_of rows'))) as Hin
      by (rewrite Hone; now left).
  apply filter_In in Hin as [Hin Hu]. apply String.eqb_eq in Hu.
  exists r'. split; trivial. split; trivial.
  rewrite E at 1. rewrite E' at 1.
  rewrite !(proj2 (PipelineFacts.result_of_url _ _ _)).
  now apply Permutation_map.
Qed.

Lemma checked_urls_ignore_row_order_witness :
  let L := python (answering 200 "OK") in
  exists r',
    In r' (@results_of L [record_B; record_A])
    /\ url r' = "https://example.com/x".
Proof.
  destruct (@checked_urls_ignore_row_order (python (answering 200 "OK"))
              [record_A; record_B] [record_B; record_A]
              (mkAnswerURLCheckResult "https://example.com/x"
                 [mkAnswerWithURL 10 1 "Question A"
                    "https://stackoverflow.com/a/1";
                  mkAnswerWithURL 5 2 "Question B"
                    "https://stackoverflow.com/a/2"]
                 (Some 200%Z) None None (Some (1 # 10))))
    as [r' [H1 [H2 _]]].
  - apply perm_swap.
  - left. reflexivity.
  - exists r'. split; assumption.
Defined.

(** ** The files and the query of [run] *)

(** X21: the file of the failures and the file of all responses never
    have the same name, whatever the output prefixes and the times. *)
Theorem output_files_are_distinct (output time_str output' time_str' : string) :
  written_file (failures_file_path output time_str)
  <> written_file (all_responses_file_path output' time_str').
Proof.
  assert (written_file (failures_file_path output time_str)
          = (output +++ "-" +++ time_str) +++ "-failures-00000-of-00001.json")
    as -> by (unfold written_file, failures_file_path;
              rewrite !StrFacts.append_assoc; reflexivity).
  assert (written_file (all_responses_file_path output' time_str')
          = (output' +++ "-" +++ time_str')
            +++ "-all_responses-00000-of-00001.json")
    as -> by (unfold written_file, all_responses_file_path;
              rewrite !StrFacts.append_assoc; reflexivity).
  intros E.
  apply ReFacts.append_eq_append in E as [[m [_ E]] | [m [_ E]]].
  - apply (f_equal String.length) in E.
    rewrite StrFacts.length_append in E. simpl in E. lia.
  - assert (String.length m = 5%nat) as Hm.
    { apply (f_equal String.length) in E.
      rewrite StrFacts.length_append in E. simpl in E. lia. }
    apply (f_equal (Str.drop (String.length m))) in E.
    rewrite StrFacts.drop_append, Hm in E. discriminate E.
Qed.

(** X22: the query is the fixed text with the decimal numeral of the
    number put in: digits only, after a minus sign when the number is
    negative. *)
Theorem query_carries_only_a_numeral (n : Z) :
  exists numeral,
    query n = query_head +++ numeral +++ query_tail
    /\ ((0 <= n)%Z -> Urllib.all_chars is_digit numeral = true)
    /\ ((n < 0)%Z ->
        exists digits,
          numeral = String "-" digits
          /\ Urllib.all_chars is_digit digits = true)
    /\ forall n', query n' = query n -> n' = n.
Proof.
  exists (Str.of_Z n). split; [reflexivity|]. split; [|split].
  - intros Hn. unfold Str.of_Z.
    destruct n as [|p|p]; [reflexivity | | lia].
    apply EmitFacts.uint_digits_zero.
  - intros Hn. unfold Str.of_Z. destruct n as [|p|p]; try lia.
    eexists. split; [reflexivity|]. apply EmitFacts.uint_digits_zero.
  - unfold query. intros n' E. apply EmitFacts.append_inj_l in E.
    apply EmitFacts.append_inj_r in E. now apply EmitFacts.of_Z_inj.
Qed.
